(** * Redis instrumentation layer: [exercise.py] and [web.py]

    A shallow embedding of the two Python modules of the repository and of
    the parts of their environment they talk to: the Redis server (a keyed
    store of byte strings and lists with expiry times), the redis-py client
    (argument encoding, reply conversion), Python's UTF-8 codec, [int],
    [repr] of integers, [uuid.uuid4] and [str] of a UUID.

    Python code is written in a small free monad [prog] over the events a
    call can issue (a Redis command, a draw of random bytes, an HTTP fetch,
    a printed line), with exceptions; [run] interprets a program against a
    world. *)

From Stdlib Require Import ZArith Lia Bool List String Ascii DecimalZ.
From stdpp Require Import gmap list.

Local Open Scope Z_scope.

(** ** Python data *)

(** A Python [str] is a sequence of code points; a [bytes] object is a
    sequence of octets.  Both are lists of integers here: an ASCII text and
    its encoding are then the same list. *)
Abbreviation pystr := (list Z) (only parsing).
Abbreviation bytes := (list Z) (only parsing).

(** The code points of a literal of the source (literals there are ASCII). *)
Definition lit (s : string) : pystr :=
  map (fun a => Z.of_N (N_of_ascii a)) (list_ascii_of_string s).

Definition is_byte (b : Z) : Prop := 0 <= b < 256.
Definition is_ascii (c : Z) : Prop := 0 <= c < 128.

#[global] Instance is_ascii_dec c : Decision (is_ascii c).
Proof. unfold is_ascii. apply _. Defined.

#[global] Instance is_byte_dec c : Decision (is_byte c).
Proof. unfold is_byte. apply _. Defined.

(** Exceptions the modelled code can meet.  All of them derive from
    [Exception], so [except Exception] catches each. *)
Inductive exn : Type :=
| AttributeError
| ValueError
| UnicodeDecodeError
| UnicodeEncodeError
| DataError
| ResponseError
| RequestException
| TypeError.

Inductive result (A : Type) : Type :=
| Ok (a : A)
| Raised (e : exn).
Arguments Ok {A} a.
Arguments Raised {A} e.

(** ** UTF-8 *)

Module Utf8.

(** [str.encode("utf-8")] on one code point: surrogates and values outside
    the Unicode range have no encoding. *)
Definition encode_cp (c : Z) : option bytes :=
  if c <? 0 then None
  else if c <? 0x80 then Some [c]
  else if c <? 0x800 then Some [0xC0 + c / 64; 0x80 + c mod 64]
  else if c <? 0x10000 then
    if (0xD800 <=? c) && (c <=? 0xDFFF) then None
    else Some [0xE0 + c / 4096; 0x80 + (c / 64) mod 64; 0x80 + c mod 64]
  else if c <? 0x110000 then
    Some [0xF0 + c / 262144; 0x80 + (c / 4096) mod 64;
          0x80 + (c / 64) mod 64; 0x80 + c mod 64]
  else None.

Fixpoint encode (s : pystr) : option bytes :=
  match s with
  | [] => Some []
  | c :: s' =>
      match encode_cp c, encode s' with
      | Some bs, Some bs' => Some (bs ++ bs')
      | _, _ => None
      end
  end.

(** The two error handlers the source uses: the default ["strict"] and
    ["ignore"]. *)
Inductive errors : Type := Strict | Ignore.

Definition is_cont (b : Z) : bool := (0x80 <=? b) && (b <? 0xC0).

(** [bytes.decode("utf-8", errors)].  An ill-formed sequence makes the
    strict decoder fail; the ignoring decoder drops the bytes before the
    offending one and resumes there, and drops a sequence cut short by
    the end of the input. *)
Fixpoint decode (e : errors) (bs : bytes) : option pystr :=
  let bad (resume : option pystr) :=
    match e with Strict => None | Ignore => resume end in
  let cut := match e with Strict => None | Ignore => Some [] end in
  match bs with
  | [] => Some []
  | b1 :: r1 =>
      if (0 <=? b1) && (b1 <? 0x80) then cons b1 <$> decode e r1
      else if (b1 <? 0xC2) || (0xF5 <=? b1) then bad (decode e r1)
      else if b1 <? 0xE0 then
        match r1 with
        | [] => cut
        | b2 :: r2 =>
            if is_cont b2
            then cons ((b1 - 0xC0) * 64 + (b2 - 0x80)) <$> decode e r2
            else bad (decode e r1)
        end
      else if b1 <? 0xF0 then
        match r1 with
        | [] => cut
        | b2 :: r2 =>
            if negb (is_cont b2)
               || ((b1 =? 0xE0) && (b2 <? 0xA0))
               || ((b1 =? 0xED) && (0xA0 <=? b2))
            then bad (decode e r1)
            else
              match r2 with
              | [] => cut
              | b3 :: r3 =>
                  if is_cont b3
                  then cons ((b1 - 0xE0) * 4096 + (b2 - 0x80) * 64
                             + (b3 - 0x80)) <$> decode e r3
                  else bad (decode e r2)
              end
        end
      else
        match r1 with
        | [] => cut
        | b2 :: r2 =>
            if negb (is_cont b2)
               || ((b1 =? 0xF0) && (b2 <? 0x90))
               || ((b1 =? 0xF4) && (0x90 <=? b2))
            then bad (decode e r1)
            else
              match r2 with
              | [] => cut
              | b3 :: r3 =>
                  if negb (is_cont b3) then bad (decode e r2)
                  else
                    match r3 with
                    | [] => cut
                    | b4 :: r4 =>
                        if is_cont b4
                        then cons ((b1 - 0xF0) * 262144 + (b2 - 0x80) * 4096
                                   + (b3 - 0x80) * 64 + (b4 - 0x80))
                               <$> decode e r4
                        else bad (decode e r3)
                    end
              end
        end
  end.

End Utf8.


(** ** Decimal text of integers *)

Module Dec.

Definition is_digit (c : Z) : Prop := 48 <= c <= 57.

Fixpoint uint_digits (d : Decimal.uint) : pystr :=
  match d with
  | Decimal.Nil => []
  | Decimal.D0 d => 48 :: uint_digits d
  | Decimal.D1 d => 49 :: uint_digits d
  | Decimal.D2 d => 50 :: uint_digits d
  | Decimal.D3 d => 51 :: uint_digits d
  | Decimal.D4 d => 52 :: uint_digits d
  | Decimal.D5 d => 53 :: uint_digits d
  | Decimal.D6 d => 54 :: uint_digits d
  | Decimal.D7 d => 55 :: uint_digits d
  | Decimal.D8 d => 56 :: uint_digits d
  | Decimal.D9 d => 57 :: uint_digits d
  end.

(** [repr] of a Python [int], which is also how Redis prints a 64-bit
    integer: the digits without leading zeros, after a minus sign for a
    negative number.  This is the text alone; [py_repr] below is Python's
    conversion, with its limit. *)
Definition int_repr (z : Z) : pystr :=
  match Z.to_int z with
  | Decimal.Pos d => uint_digits d
  | Decimal.Neg d => 45 :: uint_digits d
  end.

(** The number a sequence of decimal digits stands for, read after the
    digits that gave [acc]. *)
Fixpoint uint_value (d : Decimal.uint) (acc : Z) : Z :=
  match d with
  | Decimal.Nil => acc
  | Decimal.D0 d => uint_value d (10 * acc)
  | Decimal.D1 d => uint_value d (10 * acc + 1)
  | Decimal.D2 d => uint_value d (10 * acc + 2)
  | Decimal.D3 d => uint_value d (10 * acc + 3)
  | Decimal.D4 d => uint_value d (10 * acc + 4)
  | Decimal.D5 d => uint_value d (10 * acc + 5)
  | Decimal.D6 d => uint_value d (10 * acc + 6)
  | Decimal.D7 d => uint_value d (10 * acc + 7)
  | Decimal.D8 d => uint_value d (10 * acc + 8)
  | Decimal.D9 d => uint_value d (10 * acc + 9)
  end.

Definition digit_of (c : Z) : option (Decimal.uint -> Decimal.uint) :=
  if c =? 48 then Some Decimal.D0
  else if c =? 49 then Some Decimal.D1
  else if c =? 50 then Some Decimal.D2
  else if c =? 51 then Some Decimal.D3
  else if c =? 52 then Some Decimal.D4
  else if c =? 53 then Some Decimal.D5
  else if c =? 54 then Some Decimal.D6
  else if c =? 55 then Some Decimal.D7
  else if c =? 56 then Some Decimal.D8
  else if c =? 57 then Some Decimal.D9
  else None.

Fixpoint digits_uint (s : list Z) : option Decimal.uint :=
  match s with
  | [] => Some Decimal.Nil
  | c :: s' =>
      match digit_of c, digits_uint s' with
      | Some f, Some d => Some (f d)
      | _, _ => None
      end
  end.

Definition int64_min : Z := - 2 ^ 63.
Definition int64_max : Z := 2 ^ 63 - 1.
Definition in_int64 (z : Z) : bool := (int64_min <=? z) && (z <=? int64_max).

(** How the Redis server reads a stored string as a number (its
    [string2ll]): only the text the server itself would print for a 64-bit
    integer is accepted, so no sign [+], no leading zero, no space. *)
Definition string2ll (b : bytes) : option Z :=
  let signed :=
    match b with
    | 45 :: ds => Decimal.Neg <$> digits_uint ds
    | _ => Decimal.Pos <$> digits_uint b
    end in
  match signed with
  | Some d =>
      let z := Z.of_int d in
      if bool_decide (int_repr z = b) && in_int64 z then Some z else None
  | None => None
  end.

(** The most decimal digits the interpreter converts between an [int] and
    its text: the default of [sys.set_int_max_str_digits]. *)
Definition digit_limit : Z := 4300.

(** [repr] of a Python [int]: the decimal text, refused with [ValueError]
    for a number of more digits than the limit. *)
Definition py_repr (z : Z) : option pystr :=
  let digits := match int_repr z with 45 :: ds => ds | ds => ds end in
  if Z.of_nat (length digits) <=? digit_limit then Some (int_repr z) else None.

(** Python's [int(text)] for base 10.  The text is first brought to ASCII:
    a character below 127 stays, a Unicode space becomes a blank, a decimal
    digit of another script becomes the ASCII digit of its value, anything
    else a question mark.  Then ASCII whitespace is skipped on both sides, a
    sign may lead, single underscores may separate digits, and more digits
    than the limit are refused. *)

(** The whitespace of the ASCII reader: tab to carriage return, and the
    blank. *)
Definition is_space (c : Z) : bool :=
  ((9 <=? c) && (c <=? 13)) || (c =? 32).

(** The spaces of Unicode from 127 on. *)
Definition is_unicode_space (c : Z) : bool :=
  (c =? 133) || (c =? 160) || (c =? 5760)
  || ((8192 <=? c) && (c <=? 8202)) || (c =? 8232) || (c =? 8233)
  || (c =? 8239) || (c =? 8287) || (c =? 12288).

(** The code points of the digit zero of each script with decimal digits
    (Unicode 14.0); the digits one to nine follow each of them. *)
Definition decimal_zeros : list Z :=
  [0x30; 0x660; 0x6f0; 0x7c0; 0x966; 0x9e6; 0xa66; 0xae6; 0xb66; 0xbe6;
   0xc66; 0xce6; 0xd66; 0xde6; 0xe50; 0xed0; 0xf20; 0x1040; 0x1090; 0x17e0;
   0x1810; 0x1946; 0x19d0; 0x1a80; 0x1a90; 0x1b50; 0x1bb0; 0x1c40; 0x1c50;
   0xa620; 0xa8d0; 0xa900; 0xa9d0; 0xa9f0; 0xaa50; 0xabf0; 0xff10; 0x104a0;
   0x10d30; 0x11066; 0x110f0; 0x11136; 0x111d0; 0x112f0; 0x11450; 0x114d0;
   0x11650; 0x116c0; 0x11730; 0x118e0; 0x11950; 0x11c50; 0x11d50; 0x11da0;
   0x16a60; 0x16ac0; 0x16b50; 0x1d7ce; 0x1d7d8; 0x1d7e2; 0x1d7ec; 0x1d7f6;
   0x1e140; 0x1e2f0; 0x1e950; 0x1fbf0].

(** The value of a decimal digit of any script. *)
Definition unicode_decimal (c : Z) : option Z :=
  match List.find (fun z => (z <=? c) && (c <? z + 10)) decimal_zeros with
  | Some z => Some (c - z)
  | None => None
  end.

Definition to_ascii (c : Z) : Z :=
  if c <? 127 then c
  else if is_unicode_space c then 32
  else match unicode_decimal c with
       | Some d => 48 + d
       | None => 63
       end.

Fixpoint lstrip (s : pystr) : pystr :=
  match s with
  | c :: s' => if is_space c then lstrip s' else s
  | [] => []
  end.

Definition strip (s : pystr) : pystr := rev (lstrip (rev (lstrip s))).

Fixpoint int_body (s : pystr) (acc : Z) (after_digit : bool) : option Z :=
  match s with
  | [] => if after_digit then Some acc else None
  | c :: s' =>
      if (48 <=? c) && (c <=? 57) then int_body s' (10 * acc + (c - 48)) true
      else if (c =? 95) && after_digit then int_body s' acc false
      else None
  end.

Fixpoint count_digits (s : pystr) : Z :=
  match s with
  | [] => 0
  | c :: s' =>
      (if (48 <=? c) && (c <=? 57) then 1 else 0) + count_digits s'
  end.

(** The digits after the sign. *)
Definition int_digits (ds : pystr) : option Z :=
  if digit_limit <? count_digits ds then None else int_body ds 0 false.

Definition py_int (s : pystr) : option Z :=
  match strip (map to_ascii s) with
  | 43 :: ds => int_digits ds
  | 45 :: ds => Z.opp <$> int_digits ds
  | ds => int_digits ds
  end.

End Dec.

(** ** UUIDs *)

Module Uuid.

(** [uuid.UUID(bytes=r, version=4).int] for the 128-bit number [r] read from
    the sixteen random bytes: the variant and version fields are
    overwritten, the other 122 bits are kept. *)
Definition uuid4_int (r : Z) : Z :=
  let i := Z.land r (Z.lnot (Z.shiftl 0xc000 48)) in
  let i := Z.lor i (Z.shiftl 0x8000 48) in
  let i := Z.land i (Z.lnot (Z.shiftl 0xf000 64)) in
  Z.lor i (Z.shiftl 4 76).

(** The bits of the random number that [uuid4_int] overwrites: the variant
    field (62, 63) and the version field (76 to 79). *)
Definition overwritten (i : Z) : bool :=
  (i =? 62) || (i =? 63) || ((76 <=? i) && (i <=? 79)).

Definition is_hex (c : Z) : Prop := 48 <= c <= 57 \/ 97 <= c <= 102.

Definition hex_digit (d : Z) : Z := if d <? 10 then 48 + d else 87 + d.

(** ['%0nx' % v] for [0 <= v < 16 ^ n]. *)
Fixpoint hex_fixed (n : nat) (v : Z) : pystr :=
  match n with
  | O => []
  | S n' => hex_fixed n' (v / 16) ++ [hex_digit (v mod 16)]
  end.

(** [str] of a UUID: the 32 hexadecimal digits in groups of 8, 4, 4, 4 and
    12, separated by hyphens. *)
Definition dashed (h : pystr) : pystr :=
  take 8 h ++ [45] ++ take 4 (drop 8 h) ++ [45] ++ take 4 (drop 12 h)
  ++ [45] ++ take 4 (drop 16 h) ++ [45] ++ drop 20 h.

Definition uuid_str (u : Z) : pystr := dashed (hex_fixed 32 u).

End Uuid.

(** ** The Redis server *)

Module Redis.

(** A key holds a byte string or a list of byte strings, and may carry the
    time (in milliseconds) at which it expires. *)
Inductive value : Type :=
| VString (b : bytes)
| VList (l : list bytes).

Record entry : Type := Entry { content : value; expire_at : option Z }.

Abbreviation db := (gmap (list Z) entry) (only parsing).

(** The commands the two modules issue. *)
Inductive command : Type :=
| GET (key : bytes)
| SET (key val : bytes)
| INCR (key : bytes)
| EXPIRE (key : bytes) (seconds : Z)
| RPUSH (key val : bytes)
| LRANGE (key : bytes) (start stop : Z)
| FLUSHDB.

Inductive reply : Type :=
| Null
| Bulk (b : bytes)
| Integer (n : Z)
| Multi (l : list bytes)
| Status
| Error.

(** A key whose expiry time has passed is no longer there. *)
Definition expired (now : Z) (e : entry) : bool :=
  match expire_at e with
  | Some t => t <? now
  | None => false
  end.

Definition lookup_live (now : Z) (d : db) (key : bytes) : option entry :=
  match d !! key with
  | Some e => if expired now e then None else Some e
  | None => None
  end.

(** The elements of [l] at the indices [start .. stop], both included,
    negative indices counting from the end. *)
Definition lrange (l : list bytes) (start stop : Z) : list bytes :=
  let len := Z.of_nat (length l) in
  let start := if start <? 0 then Z.max 0 (start + len) else start in
  let stop := if stop <? 0 then stop + len else stop in
  let stop := Z.min stop (len - 1) in
  if (stop <? start) || (len <=? start) then []
  else take (Z.to_nat (stop - start + 1)) (drop (Z.to_nat start) l).

(** One command executed at time [now]. *)
Definition exec (now : Z) (c : command) (d : db) : reply * db :=
  match c with
  | GET key =>
      match lookup_live now d key with
      | None => (Null, d)
      | Some (Entry (VString b) _) => (Bulk b, d)
      | Some (Entry (VList _) _) => (Error, d)
      end
  | SET key val => (Status, <[key := Entry (VString val) None]> d)
  | INCR key =>
      match lookup_live now d key with
      | None => (Integer 1, <[key := Entry (VString (Dec.int_repr 1)) None]> d)
      | Some (Entry (VString b) t) =>
          match Dec.string2ll b with
          | Some n =>
              if n <? Dec.int64_max
              then (Integer (n + 1),
                    <[key := Entry (VString (Dec.int_repr (n + 1))) t]> d)
              else (Error, d)
          | None => (Error, d)
          end
      | Some (Entry (VList _) _) => (Error, d)
      end
  | EXPIRE key seconds =>
      match lookup_live now d key with
      | None => (Integer 0, d)
      | Some (Entry v _) =>
          if seconds <=? 0 then (Integer 1, delete key d)
          else (Integer 1, <[key := Entry v (Some (now + 1000 * seconds))]> d)
      end
  | RPUSH key val =>
      match lookup_live now d key with
      | None => (Integer 1, <[key := Entry (VList [val]) None]> d)
      | Some (Entry (VList l) t) =>
          (Integer (Z.of_nat (length l) + 1),
           <[key := Entry (VList (l ++ [val])) t]> d)
      | Some (Entry (VString _) _) => (Error, d)
      end
  | LRANGE key start stop =>
      match lookup_live now d key with
      | None => (Multi [], d)
      | Some (Entry (VList l) _) => (Multi (lrange l start stop), d)
      | Some (Entry (VString _) _) => (Error, d)
      end
  | FLUSHDB => (Status, ∅)
  end.

(** The commands that leave every database as it is. *)
Definition read_only (c : command) : bool :=
  match c with
  | GET _ | LRANGE _ _ _ => true
  | _ => false
  end.

End Redis.

(** ** Python programs *)

(** A program returns, raises, or issues an event and continues with its
    answer: a Redis command with the server's reply, sixteen random bytes
    (as a number below [2 ^ 128]), an HTTP fetch with the text of the
    response, a line printed to standard output. *)
Inductive prog (A : Type) : Type :=
| Ret (a : A)
| Throw (e : exn)
| Call (c : Redis.command) (k : Redis.reply -> prog A)
| Urandom16 (k : Z -> prog A)
| HttpGet (url : pystr) (k : result pystr -> prog A)
| Print (line : pystr) (k : prog A).
Arguments Ret {A} a.
Arguments Throw {A} e.
Arguments Call {A} c k.
Arguments Urandom16 {A} k.
Arguments HttpGet {A} url k.
Arguments Print {A} line k.

Fixpoint bind {A B : Type} (p : prog A) (f : A -> prog B) : prog B :=
  match p with
  | Ret a => f a
  | Throw e => Throw e
  | Call c k => Call c (fun r => bind (k r) f)
  | Urandom16 k => Urandom16 (fun r => bind (k r) f)
  | HttpGet url k => HttpGet url (fun r => bind (k r) f)
  | Print line k => Print line (bind k f)
  end.

#[global] Instance prog_ret : MRet prog := @Ret.
#[global] Instance prog_bind : MBind prog := fun A B f p => bind p f.

(** [try: p  except Exception: h]. *)
Fixpoint try_except {A : Type} (p : prog A) (h : exn -> prog A) : prog A :=
  match p with
  | Ret a => Ret a
  | Throw e => h e
  | Call c k => Call c (fun r => try_except (k r) h)
  | Urandom16 k => Urandom16 (fun r => try_except (k r) h)
  | HttpGet url k => HttpGet url (fun r => try_except (k r) h)
  | Print line k => Print line (try_except k h)
  end.

(** [for x in l: body x]. *)
Fixpoint for_each {A : Type} (l : list A) (body : A -> prog unit) : prog unit :=
  match l with
  | [] => Ret tt
  | x :: l' => _ ← body x; for_each l' body
  end.

(** What surrounds a run: the server's clock, the random bytes and the
    web, each asked at the position of the event in the run. *)
Record env : Type := Env {
  clock : nat -> Z;
  urandom : nat -> Z;
  http : nat -> pystr -> result pystr
}.

Record world : Type := World {
  redis : gmap (list Z) Redis.entry;
  tick : nat;
  stdout : list pystr
}.

Fixpoint run {A : Type} (E : env) (p : prog A) (w : world) : result A * world :=
  match p with
  | Ret a => (Ok a, w)
  | Throw e => (Raised e, w)
  | Call c k =>
      let '(r, d) := Redis.exec (clock E (tick w)) c (redis w) in
      run E (k r) (World d (S (tick w)) (stdout w))
  | Urandom16 k =>
      run E (k (urandom E (tick w) mod 2 ^ 128))
          (World (redis w) (S (tick w)) (stdout w))
  | HttpGet url k =>
      run E (k (http E (tick w) url))
          (World (redis w) (S (tick w)) (stdout w))
  | Print line k =>
      run E k (World (redis w) (tick w) (stdout w ++ [line]))
  end.

(** The Redis commands a run sends, in order. *)
Fixpoint trace {A : Type} (E : env) (p : prog A) (w : world) : list Redis.command :=
  match p with
  | Ret _ | Throw _ => []
  | Call c k =>
      let '(r, d) := Redis.exec (clock E (tick w)) c (redis w) in
      c :: trace E (k r) (World d (S (tick w)) (stdout w))
  | Urandom16 k =>
      trace E (k (urandom E (tick w) mod 2 ^ 128))
            (World (redis w) (S (tick w)) (stdout w))
  | HttpGet url k =>
      trace E (k (http E (tick w) url))
            (World (redis w) (S (tick w)) (stdout w))
  | Print line k =>
      trace E k (World (redis w) (tick w) (stdout w ++ [line]))
  end.

(** Every command the program can send, whatever the answers, satisfies
    [P]. *)
Inductive sends_only {A : Type} (P : Redis.command -> Prop) : prog A -> Prop :=
| so_ret a : sends_only P (Ret a)
| so_throw e : sends_only P (Throw e)
| so_call c k : P c -> (forall r, sends_only P (k r)) -> sends_only P (Call c k)
| so_urandom k : (forall r, sends_only P (k r)) -> sends_only P (Urandom16 k)
| so_http url k : (forall r, sends_only P (k r)) -> sends_only P (HttpGet url k)
| so_print line k : sends_only P k -> sends_only P (Print line k).

(** ** Python values and the redis-py client *)

(** The values the two modules handle.  No arithmetic is done on floats:
    a float is kept as the text [repr] gives for it. *)
Inductive pyval : Type :=
| PNone
| PStr (s : pystr)
| PBytes (b : bytes)
| PInt (z : Z)
| PFloat (repr : pystr).

(** Truth value of an object in a condition. *)
Definition truthy (v : pyval) : bool :=
  match v with
  | PNone => false
  | PStr s => negb (bool_decide (s = []))
  | PBytes b => negb (bool_decide (b = []))
  | PInt z => negb (z =? 0)
  | PFloat r => negb (bool_decide (r = lit "0.0") || bool_decide (r = lit "-0.0"))
  end.

(** [value.decode("utf-8", errors)]: only [bytes] has the method. *)
Definition py_decode (value : pyval) (e : Utf8.errors) : prog pystr :=
  match value with
  | PBytes b =>
      match Utf8.decode e b with
      | Some s => Ret s
      | None => Throw UnicodeDecodeError
      end
  | _ => Throw AttributeError
  end.

(** [int(text)]: [ValueError] for a text that is no integer, or one of
    more digits than the limit. *)
Definition py_int (s : pystr) : prog Z :=
  match Dec.py_int s with
  | Some n => Ret n
  | None => Throw ValueError
  end.

Definition print (line : pystr) : prog unit := Print line (Ret tt).

(** The calls of [redis.Redis] that the two modules make.  The server is
    taken to be reachable: a call fails only on what the client refuses to
    encode or on an error reply of the server. *)
Module Client.

Definition encode_text (s : pystr) : prog bytes :=
  match Utf8.encode s with
  | Some b => Ret b
  | None => Throw UnicodeEncodeError
  end.

(** How the client turns an argument into the bytes it sends: [bytes] as
    they are, a [str] encoded as UTF-8, a number through its [repr], which
    raises [ValueError] for an [int] of more digits than the limit. *)
Definition encode_arg (v : pyval) : prog bytes :=
  match v with
  | PBytes b => Ret b
  | PStr s => encode_text s
  | PInt z =>
      match Dec.py_repr z with
      | Some s => encode_text s
      | None => Throw ValueError
      end
  | PFloat r => encode_text r
  | PNone => Throw DataError
  end.

(** [r.get(key)]: the bytes stored, or [None]. *)
Definition get (key : pystr) : prog pyval :=
  k ← encode_text key;
  Call (Redis.GET k) (fun r =>
    match r with
    | Redis.Null => Ret PNone
    | Redis.Bulk b => Ret (PBytes b)
    | _ => Throw ResponseError
    end).

Definition set (key : pystr) (val : pyval) : prog bool :=
  k ← encode_text key;
  v ← encode_arg val;
  Call (Redis.SET k v) (fun r =>
    match r with
    | Redis.Status => Ret true
    | _ => Throw ResponseError
    end).

Definition incr (key : pystr) : prog Z :=
  k ← encode_text key;
  Call (Redis.INCR k) (fun r =>
    match r with
    | Redis.Integer n => Ret n
    | _ => Throw ResponseError
    end).

Definition expire (key : pystr) (seconds : Z) : prog bool :=
  k ← encode_text key;
  Call (Redis.EXPIRE k seconds) (fun r =>
    match r with
    | Redis.Integer n => Ret (negb (n =? 0))
    | _ => Throw ResponseError
    end).

Definition rpush (key : pystr) (val : pyval) : prog Z :=
  k ← encode_text key;
  v ← encode_arg val;
  Call (Redis.RPUSH k v) (fun r =>
    match r with
    | Redis.Integer n => Ret n
    | _ => Throw ResponseError
    end).

Definition lrange (key : pystr) (start stop : Z) : prog (list bytes) :=
  k ← encode_text key;
  Call (Redis.LRANGE k start stop) (fun r =>
    match r with
    | Redis.Multi l => Ret l
    | _ => Throw ResponseError
    end).

Definition flushdb : prog bool :=
  Call Redis.FLUSHDB (fun r =>
    match r with
    | Redis.Status => Ret true
    | _ => Throw ResponseError
    end).

End Client.

(** ** Reading a world *)

(** The server's time at the next event of a run. *)
Definition now (E : env) (w : world) : Z := clock E (tick w).

(** The world once an event has left the database as [d]. *)
Definition after (w : world) (d : gmap (list Z) Redis.entry) : world :=
  World d (S (tick w)) (stdout w).

(** The number a counter key stands for at time [t]; no key counts as
    zero, as for the server's increment. *)
Definition counter_value (t : Z) (d : gmap (list Z) Redis.entry) (key : bytes)
  : option Z :=
  match Redis.lookup_live t d key with
  | None => Some 0
  | Some (Redis.Entry (Redis.VString b) _) => Dec.string2ll b
  | Some (Redis.Entry (Redis.VList _) _) => None
  end.

(** The list under a key that never expires; no key is the empty list. *)
Definition stored_list (d : gmap (list Z) Redis.entry) (key : bytes)
  : option (list bytes) :=
  match d !! key with
  | None => Some []
  | Some (Redis.Entry (Redis.VList l) None) => Some l
  | Some _ => None
  end.

(** The texts of a list of byte strings, when each is valid UTF-8. *)
Definition decode_all (l : list bytes) : option (list pystr) :=
  mapM (Utf8.decode Utf8.Strict) l.

(** A function object: its qualified name and what calling it does. *)
Record pyfunc : Type := PyFunc {
  __qualname__ : pystr;
  __call__ : list pyval -> prog pyval
}.

(** ** exercise.py *)

(** The class [RedisCache].  Its methods use the attribute [_redis], a
    client of database 0 of the local server, and [replay] makes a client
    of its own with the defaults, which name the same database: all of them
    talk to the one database of the world. *)
Module RedisCache.

(** [__init__]: connect to database 0 of the local server and flush it. *)
Definition __init__ : prog unit :=
  _ ← Client.flushdb;
  Ret tt.

Definition _decode_value (value : pyval) (default : pyval) : prog pyval :=
  try_except (s ← py_decode value Utf8.Strict; Ret (PStr s))
             (fun _ => Ret default).

(** The default of the parameter [default]. *)
Definition _decode_value_default : pyval := PStr [].

Definition _get_function_key (func : pyfunc) : pystr := __qualname__ func.

(** The body of [store], as written under the decorator line
    [@count_calls]; the decorated function is [decorated_store] below. *)
Definition store (data : pyval) : prog pyval :=
  r ← Urandom16 Ret;
  let key := Uuid.uuid_str (Uuid.uuid4_int r) in
  _ ← Client.set key data;
  Ret (PStr key).

Definition get (key : pystr) (decode_function : option (pyval -> prog pyval))
  : prog pyval :=
  value ← Client.get key;
  match decode_function with
  | None => _decode_value value _decode_value_default
  | Some f => f value
  end.

Definition get_str (key : pystr) : prog pyval :=
  get key (Some (fun value => _decode_value value _decode_value_default)).

Definition get_int (key : pystr) : prog pyval :=
  get key (Some (fun value =>
                   s ← py_decode value Utf8.Ignore;
                   n ← py_int s;
                   Ret (PInt n))).

(** The line [replay] prints for one recorded call. *)
Definition call_line (func_name inp outp : pystr) : pystr :=
  func_name ++ lit "(*" ++ inp ++ lit ") -> " ++ outp.

(** The first line [replay] prints.  The count it formats was read by
    [int], so it is within the digit limit and formatting it cannot fail. *)
Definition count_line (func_name : pystr) (call_count : Z) : pystr :=
  func_name ++ lit " was called " ++ Dec.int_repr call_count ++ lit " times:".

Definition replay (func : pyfunc) : prog unit :=
  let func_name := _get_function_key func in
  present ← Client.get func_name;
  call_count ←
    (if truthy present
     then v ← Client.get func_name;
          s ← py_decode v Utf8.Strict;
          py_int s
     else Ret 0);
  _ ← print (count_line func_name call_count);
  inputs ← Client.lrange (func_name ++ lit ":inputs") 0 (-1);
  outputs ← Client.lrange (func_name ++ lit ":outputs") 0 (-1);
  for_each (zip inputs outputs) (fun io =>
    inp ← py_decode (PBytes io.1) Utf8.Strict;
    outp ← py_decode (PBytes io.2) Utf8.Strict;
    print (call_line func_name inp outp)).

(** The function object [store] before decoration. *)
Definition store_function : pyfunc :=
  PyFunc (lit "RedisCache.store")
         (fun args =>
            match args with
            | [data] => store data
            | _ => Throw TypeError
            end).

End RedisCache.

(** Modelled from the spec: the decorator [count_calls], applied to [store]
    in exercise.py but defined nowhere in the sources.  The spec has it
    count the invocations of the decorated function in a per-function
    counter keyed by a derived name, by one call of the store's increment;
    the derived name is [_get_function_key], which is in the source. *)
Definition count_calls (method : pyfunc) : pyfunc :=
  PyFunc (__qualname__ method)
         (fun args =>
            _ ← Client.incr (RedisCache._get_function_key method);
            __call__ method args).

(** Modelled from the spec: [store] as the class has it, the function under
    the decorator line [@count_calls]; the decorator is the model above. *)
Definition decorated_store : pyfunc := count_calls RedisCache.store_function.

(** Modelled from the spec: the decorator that records the call history,
    absent from the sources.  The spec has two ordered sequences per
    function, call inputs and call outputs, filled by the store's
    list-append; [replay], which is in the source, reads them under the
    function's key followed by [:inputs] and [:outputs].  [str_args] is the
    text recorded for the arguments of a call. *)
Definition call_history (str_args : list pyval -> pystr) (method : pyfunc)
  : pyfunc :=
  PyFunc (__qualname__ method)
         (fun args =>
            let key := RedisCache._get_function_key method in
            _ ← Client.rpush (key ++ lit ":inputs") (PStr (str_args args));
            output ← __call__ method args;
            _ ← Client.rpush (key ++ lit ":outputs") output;
            Ret output).

(** ** web.py *)

(** [redis_store] is a client with the defaults, as in exercise.py. *)
Module Web.

Definition wrapper (method : pystr -> prog pyval) (url : pystr) : prog pyval :=
  let cached_key := lit "cached:" ++ url in
  cached_data ← Client.get cached_key;
  if truthy cached_data
  then s ← py_decode cached_data Utf8.Strict; Ret (PStr s)
  else
    let count_key := lit "count:" ++ url in
    html_content ← method url;
    _ ← Client.incr count_key;
    _ ← Client.set cached_key html_content;
    _ ← Client.expire cached_key 10;
    Ret html_content.

Definition count_url_access (method : pystr -> prog pyval)
  : pystr -> prog pyval := wrapper method.

(** The body of [get_page], as written under the decorator line:
    [requests.get(url).text]. *)
Definition get_page_body (url : pystr) : prog pyval :=
  HttpGet url (fun r =>
    match r with
    | Ok text => Ret (PStr text)
    | Raised e => Throw e
    end).

Definition get_page : pystr -> prog pyval := count_url_access get_page_body.

End Web.

(** ** Worlds and environments for the examples *)

(** The random number a call to [store] made in world [w] draws, and the
    key it makes of it. *)
Definition draw (E : env) (w : world) : Z := urandom E (tick w) mod 2 ^ 128.

Definition drawn_key (E : env) (w : world) : pystr :=
  Uuid.uuid_str (Uuid.uuid4_int (draw E w)).

(** A clock that advances one second per event, random draws 0, 1, 2, ...
    and a web where every page reads [<html>]. *)
Definition sample_env : env :=
  Env (fun n => 1000 * Z.of_nat n) (fun n => Z.of_nat n)
      (fun _ _ => Ok (lit "<html>")).

Definition empty_world : world := World ∅ 0 [].

(** Random draws that differ in the bits [uuid4] overwrites. *)
Definition colliding_env : env :=
  Env (fun n => 1000 * Z.of_nat n)
      (fun n => match n with O => 0 | _ => 2 ^ 62 end)
      (fun _ _ => Ok (lit "<html>")).

(** A web where every page is empty. *)
Definition empty_page_env : env :=
  Env (fun n => 1000 * Z.of_nat n) (fun n => Z.of_nat n) (fun _ _ => Ok []).

(** A world where the key [k] holds a byte that is not UTF-8. *)
Definition undecodable_world : world :=
  World {[ lit "k" := Redis.Entry (Redis.VString [255]) None ]} 0 [].

(** ** The commands the specification names *)

(** The mutations the specification lists: set, increment, list-append and
    expire. *)
Definition named_mutation (c : Redis.command) : Prop :=
  match c with
  | Redis.SET _ _ | Redis.INCR _ | Redis.RPUSH _ _ | Redis.EXPIRE _ _ => True
  | _ => False
  end.

(** A command that reads, or one of the named mutations. *)
Definition read_or_named (c : Redis.command) : Prop :=
  Redis.read_only c = true \/ named_mutation c.

Definition is_set (c : Redis.command) : Prop :=
  match c with Redis.SET _ _ => True | _ => False end.

Definition is_get (c : Redis.command) : Prop :=
  match c with Redis.GET _ => True | _ => False end.

(** What [replay] sends: [get] and [lrange] of the whole list. *)
Definition get_or_lrange (c : Redis.command) : Prop :=
  match c with
  | Redis.GET _ => True
  | Redis.LRANGE _ start stop => start = 0 /\ stop = -1
  | _ => False
  end.

(** What the decorated [store] sends: increment and set. *)
Definition incr_or_set (c : Redis.command) : Prop :=
  match c with
  | Redis.INCR _ | Redis.SET _ _ => True
  | _ => False
  end.

(** What [get_page] sends: get, increment, set, and expire with ten
    seconds. *)
Definition page_command (c : Redis.command) : Prop :=
  match c with
  | Redis.GET _ | Redis.INCR _ | Redis.SET _ _ => True
  | Redis.EXPIRE _ seconds => seconds = 10
  | _ => False
  end.

Definition reads (c : Redis.command) : Prop := Redis.read_only c = true.

(** The number of calls [replay] reads under the function's key when the
    key never expires: no key, or an empty string, reads as zero. *)
Definition replay_count (d : gmap (list Z) Redis.entry) (key : bytes)
  : option Z :=
  match d !! key with
  | None => Some 0
  | Some (Redis.Entry (Redis.VString b) None) =>
      if bool_decide (b = []) then Some 0
      else Utf8.decode Utf8.Strict b ≫= Dec.py_int
  | Some _ => None
  end.

(** A text for the arguments of a call, for the examples: the tuple as
    Python prints it, for no argument and for one that is an integer or
    [None]. *)
Definition sample_str_args (args : list pyval) : pystr :=
  match args with
  | [] => lit "()"
  | [PInt z] => lit "(" ++ Dec.int_repr z ++ lit ",)"
  | [PNone] => lit "(None,)"
  | _ => lit "(...)"
  end.

(** Calling [f] on each argument list in turn, with the list of results. *)
Fixpoint call_each (f : pyfunc) (argss : list (list pyval))
  : prog (list pyval) :=
  match argss with
  | [] => Ret []
  | args :: rest =>
      out ← __call__ f args;
      outs ← call_each f rest;
      Ret (out :: outs)
  end.


(** ** Further readings of a world, and worlds for more examples *)

(** A counter key that never expires and stands for [n]; no key stands for
    zero. *)
Definition persistent_counter (d : gmap (list Z) Redis.entry) (key : bytes)
    (n : Z) : Prop :=
  match d !! key with
  | None => n = 0
  | Some (Redis.Entry (Redis.VString b) None) => Dec.string2ll b = Some n
  | Some _ => False
  end.

(** A character of the text of a UUID: a hexadecimal digit or a hyphen. *)
Definition is_uuid_char (c : Z) : Prop := Uuid.is_hex c \/ c = 45.

(** A clock that advances eleven seconds per event. *)
Definition slow_env : env :=
  Env (fun n => 11000 * Z.of_nat n) (fun n => Z.of_nat n)
      (fun n _ => Ok (lit "page " ++ Dec.int_repr (Z.of_nat n))).

(** A web that cannot be reached. *)
Definition offline_env : env :=
  Env (fun n => 1000 * Z.of_nat n) (fun n => Z.of_nat n)
      (fun _ _ => Raised RequestException).

(** A world where the function [f] has two recorded inputs and one recorded
    output. *)
Definition uneven_history_world : world :=
  World (<[lit "f:inputs"
           := Redis.Entry (Redis.VList [lit "(1,)"; lit "(2,)"]) None]>
           {[ lit "f:outputs" := Redis.Entry (Redis.VList [lit "a"]) None ]})
        0 [].

(** A world where a page is cached, for ever, under the URL [u]. *)
Definition cached_world : world :=
  World {[ lit "cached:u" := Redis.Entry (Redis.VString (lit "<p>")) None ]}
        0 [].

(** A world where the key [k] holds the text [ 12 ], spaces included. *)
Definition padded_number_world : world :=
  World {[ lit "k" := Redis.Entry (Redis.VString (lit " 12 ")) None ]} 0 [].

(** A command that reads, or writes under a key in [K]. *)
Definition writes_within (K : list Z -> Prop) (c : Redis.command) : Prop :=
  match c with
  | Redis.GET _ | Redis.LRANGE _ _ _ => True
  | Redis.SET k _ | Redis.INCR k | Redis.EXPIRE k _ | Redis.RPUSH k _ => K k
  | Redis.FLUSHDB => False
  end.


(** The two keys [get_page] keeps for a URL whose encoding is [u]. *)
Definition page_key (u : list Z) (k : list Z) : Prop :=
  k = lit "cached:" ++ u \/ k = lit "count:" ++ u.

(** A world where the key [k] holds a list. *)
Definition list_world : world :=
  World {[ lit "k" := Redis.Entry (Redis.VList [lit "a"]) None ]} 0 [].

(** * Facts about the codecs *)

(** Settle the comparisons of a goal by linear arithmetic, splitting on
    those it leaves open. *)
Ltac zcases :=
  repeat match goal with
  | |- context [Z.ltb ?a ?b] =>
      first [ rewrite (proj2 (Z.ltb_lt a b)) by lia
            | rewrite (proj2 (Z.ltb_ge a b)) by lia
            | destruct (Z.ltb_spec a b) ]
  | |- context [Z.leb ?a ?b] =>
      first [ rewrite (proj2 (Z.leb_le a b)) by lia
            | rewrite (proj2 (Z.leb_gt a b)) by lia
            | destruct (Z.leb_spec a b) ]
  | |- context [Z.eqb ?a ?b] =>
      first [ rewrite (proj2 (Z.eqb_eq a b)) by lia
            | rewrite (proj2 (Z.eqb_neq a b)) by lia
            | destruct (Z.eqb_spec a b) ]
  end.

Section Utf8Facts.
Import Utf8.

Lemma base64_digits c :
  0 <= c ->
  exists d0 d1 d2 q,
    c mod 64 = d0 /\ (c / 64) mod 64 = d1 /\ (c / 4096) mod 64 = d2 /\
    c / 64 = 64 * (c / 4096) + d1 /\ c / 4096 = 64 * q + d2 /\
    c / 262144 = q /\ c = 64 * (c / 64) + d0 /\
    0 <= d0 < 64 /\ 0 <= d1 < 64 /\ 0 <= d2 < 64 /\ 0 <= q.
Proof.
  intros Hc.
  exists (c mod 64), ((c / 64) mod 64), ((c / 4096) mod 64), (c / 262144).
  replace (c / 4096) with (c / 64 / 64)
    by (rewrite Z.div_div by lia; reflexivity).
  replace (c / 262144) with (c / 64 / 64 / 64)
    by (rewrite !Z.div_div by lia; reflexivity).
  pose proof (Z.div_mod c 64 ltac:(lia)).
  pose proof (Z.div_mod (c / 64) 64 ltac:(lia)).
  pose proof (Z.div_mod (c / 64 / 64) 64 ltac:(lia)).
  pose proof (Z.mod_pos_bound c 64 ltac:(lia)).
  pose proof (Z.mod_pos_bound (c / 64) 64 ltac:(lia)).
  pose proof (Z.mod_pos_bound (c / 64 / 64) 64 ltac:(lia)).
  assert (0 <= c / 64 / 64 / 64) by (repeat apply Z.div_pos; lia).
  repeat split; try lia.
Qed.

(** Decoding reads back a code point from its encoding, under either error
    handler. *)
Lemma utf8_decode_encode_cp e c bs rest :
  encode_cp c = Some bs ->
  decode e (bs ++ rest) = cons c <$> decode e rest.
Proof.
  unfold encode_cp.
  destruct (Z.ltb_spec c 0); [discriminate|].
  destruct (base64_digits c)
    as (d0 & d1 & d2 & q & -> & -> & -> & E1 & E2 & E3 & E0 & ? & ? & ? & ?);
    [lia|].
  destruct (Z.ltb_spec c 0x80).
  { intros [= <-]. cbn [app decode]. zcases. reflexivity. }
  destruct (Z.ltb_spec c 0x800).
  { intros [= <-]. cbn [app decode]. unfold is_cont.
    generalize dependent (c / 64); intros.
    zcases. cbn. do 2 f_equal. lia. }
  destruct (Z.ltb_spec c 0x10000).
  { destruct (Z.leb_spec 0xD800 c); destruct (Z.leb_spec c 0xDFFF);
      cbn [andb]; try discriminate.
    all: intros [= <-]; cbn [app decode]; unfold is_cont.
    all: generalize dependent (c / 4096); generalize dependent (c / 64); intros.
    all: zcases; cbn; do 2 f_equal; lia. }
  destruct (Z.ltb_spec c 0x110000); [|discriminate].
  intros [= <-]. cbn [app decode]. unfold is_cont.
  rewrite E3.
  generalize dependent (c / 4096); generalize dependent (c / 64); intros.
  zcases; cbn; do 2 f_equal; lia.
Qed.

Lemma utf8_decode_encode e s bs : encode s = Some bs -> decode e bs = Some s.
Proof.
  revert bs. induction s as [|c s IH]; intros bs.
  - intros [= <-]. reflexivity.
  - cbn [encode]. destruct (encode_cp c) as [b1|] eqn:Hc; [|discriminate].
    destruct (encode s) as [b2|]; [|discriminate].
    intros [= <-]. rewrite (utf8_decode_encode_cp e c b1 b2 Hc).
    rewrite (IH b2 eq_refl). reflexivity.
Qed.

Lemma utf8_encode_inj s1 s2 bs :
  encode s1 = Some bs -> encode s2 = Some bs -> s1 = s2.
Proof.
  intros H1 H2. apply (utf8_decode_encode Strict) in H1, H2. congruence.
Qed.

Lemma utf8_encode_app s1 s2 :
  encode (s1 ++ s2) =
  match encode s1, encode s2 with
  | Some b1, Some b2 => Some (b1 ++ b2)
  | _, _ => None
  end.
Proof.
  induction s1 as [|c s1 IH]; cbn [encode app].
  - destruct (encode s2); reflexivity.
  - rewrite IH. destruct (encode_cp c), (encode s1), (encode s2);
      rewrite <- ?app_assoc; reflexivity.
Qed.

Lemma utf8_encode_ascii s : Forall is_ascii s -> encode s = Some s.
Proof.
  induction 1 as [|c s Hc _ IH]; [reflexivity|].
  cbn [encode]. rewrite IH. unfold encode_cp. unfold is_ascii in Hc.
  zcases. reflexivity.
Qed.

Lemma utf8_decode_ascii e s : Forall is_ascii s -> decode e s = Some s.
Proof. intros H. apply utf8_decode_encode, utf8_encode_ascii, H. Qed.

Lemma ascii_is_byte c : is_ascii c -> is_byte c.
Proof. unfold is_ascii, is_byte. lia. Qed.

End Utf8Facts.

Section DecFacts.
Import Dec.

Lemma uint_digits_are_digits d : Forall is_digit (uint_digits d).
Proof.
  induction d; cbn [uint_digits]; constructor; auto; unfold is_digit; lia.
Qed.

Lemma digits_uint_uint_digits d : digits_uint (uint_digits d) = Some d.
Proof.
  induction d; cbn [uint_digits digits_uint]; [reflexivity|..];
    rewrite IHd; reflexivity.
Qed.

Lemma int_repr_ascii z : Forall is_ascii (int_repr z).
Proof.
  unfold int_repr.
  assert (forall d, Forall is_ascii (uint_digits d)) as Hd.
  { intros d. eapply Forall_impl; [apply uint_digits_are_digits|].
    unfold is_digit, is_ascii. intros; lia. }
  destruct (Z.to_int z); [apply Hd|].
  constructor; [unfold is_ascii; lia | apply Hd].
Qed.

Lemma int_repr_nonempty z : int_repr z <> [].
Proof.
  unfold int_repr. destruct z as [|p|p]; cbn [Z.to_int]; try discriminate.
  pose proof (DecimalPos.Unsigned.to_uint_nonnil p) as Hp.
  destruct (Pos.to_uint p); cbn [uint_digits]; congruence.
Qed.

(** The server reads back the numbers it prints. *)
Lemma string2ll_int_repr z :
  in_int64 z = true -> string2ll (int_repr z) = Some z.
Proof.
  intros Hz. unfold string2ll.
  assert (match int_repr z with
          | 45 :: ds => Decimal.Neg <$> digits_uint ds
          | _ => Decimal.Pos <$> digits_uint (int_repr z)
          end = Some (Z.to_int z)) as ->.
  { unfold int_repr. destruct (Z.to_int z) as [d|d].
    - pose proof (uint_digits_are_digits d) as Hd.
      destruct (uint_digits d) as [|c ds] eqn:Hc.
      + rewrite <- Hc, digits_uint_uint_digits. reflexivity.
      + apply Forall_cons in Hd as [Hd _]. unfold is_digit in Hd.
        transitivity (Decimal.Pos <$> digits_uint (c :: ds)).
        * destruct c as [|p|p]; try lia.
          do 6 (destruct p as [p|p|]; try reflexivity); lia.
        * rewrite <- Hc, digits_uint_uint_digits. reflexivity.
    - rewrite digits_uint_uint_digits. reflexivity. }
  rewrite DecimalZ.of_to, Hz, bool_decide_eq_true_2 by reflexivity.
  reflexivity.
Qed.

Lemma string2ll_canonical b z : string2ll b = Some z -> int_repr z = b.
Proof.
  unfold string2ll.
  destruct (match b with
            | 45 :: ds => Decimal.Neg <$> digits_uint ds
            | _ => Decimal.Pos <$> digits_uint b
            end) as [d|]; [|discriminate].
  case_bool_decide as Hb; cbn [andb]; [|discriminate].
  destruct (in_int64 _); [|discriminate]. intros [= <-]. exact Hb.
Qed.

Lemma of_uint_acc_value d acc :
  Z.pos (Pos.of_uint_acc d acc) = uint_value d (Z.pos acc).
Proof.
  revert acc. induction d; intros acc; cbn [Pos.of_uint_acc uint_value];
    [reflexivity|..]; rewrite IHd; f_equal; lia.
Qed.

Lemma of_uint_value d : Z.of_N (Pos.of_uint d) = uint_value d 0.
Proof.
  induction d; cbn [Pos.of_uint uint_value]; [reflexivity|exact IHd|..];
    cbn [Z.of_N]; rewrite of_uint_acc_value; reflexivity.
Qed.

Lemma int_body_uint_digits d acc (after_digit : bool) :
  d <> Decimal.Nil \/ after_digit = true ->
  int_body (uint_digits d) acc after_digit = Some (uint_value d acc).
Proof.
  revert acc after_digit.
  induction d; intros acc after_digit Hd; cbn [uint_digits int_body uint_value].
  1: destruct Hd as [Hd| ->]; [congruence|reflexivity].
  all: cbn [Z.leb Z.compare Pos.compare Pos.compare_cont andb Z.sub Z.add
              Z.opp Z.pos_sub Pos.pred_double Z.succ_double Z.pred_double
              Z.double Pos.add Pos.succ].
  all: rewrite IHd by (right; reflexivity); f_equal; f_equal; lia.
Qed.

Lemma not_space_digit c : is_digit c \/ c = 45 -> is_space c = false.
Proof. unfold is_digit, is_space. intros [H| ->]; [zcases|]; reflexivity. Qed.

Lemma lstrip_no_space s :
  Forall (fun c => is_space c = false) s -> lstrip s = s.
Proof. destruct 1 as [|c s Hc _]; cbn [lstrip]; [|rewrite Hc]; reflexivity. Qed.

Lemma strip_no_space s :
  Forall (fun c => is_space c = false) s -> strip s = s.
Proof.
  intros H. unfold strip. rewrite (lstrip_no_space s H).
  rewrite lstrip_no_space by (apply Forall_rev, H). apply rev_involutive.
Qed.

Lemma int_repr_no_space z :
  Forall (fun c => is_space c = false) (int_repr z).
Proof.
  assert (forall d, Forall (fun c => is_space c = false) (uint_digits d)) as Hd.
  { intros d. eapply Forall_impl; [apply uint_digits_are_digits|].
    intros c Hc. apply not_space_digit. left. exact Hc. }
  unfold int_repr. destruct (Z.to_int z); [apply Hd|].
  constructor; [reflexivity|apply Hd].
Qed.

Lemma to_ascii_below c : c < 127 -> to_ascii c = c.
Proof. intros Hc. unfold to_ascii. rewrite (proj2 (Z.ltb_lt _ _) Hc). reflexivity. Qed.

Lemma map_to_ascii_below s : Forall (fun c => c < 127) s -> map to_ascii s = s.
Proof.
  induction 1 as [|c s Hc _ IH]; [reflexivity|].
  cbn [map]. rewrite IH, (to_ascii_below c Hc). reflexivity.
Qed.

Lemma int_repr_below z : Forall (fun c => c < 127) (int_repr z).
Proof.
  assert (forall d, Forall (fun c => c < 127) (uint_digits d)) as Hd.
  { intros d. eapply Forall_impl; [apply uint_digits_are_digits|].
    unfold is_digit. intros; lia. }
  unfold int_repr. destruct (Z.to_int z); [apply Hd|].
  constructor; [lia|apply Hd].
Qed.

Lemma count_digits_uint_digits d :
  count_digits (uint_digits d) = Z.of_nat (length (uint_digits d)).
Proof.
  induction d; cbn [uint_digits count_digits length]; [reflexivity|..];
    rewrite IHd; cbn [Z.leb Z.compare Pos.compare Pos.compare_cont andb];
    lia.
Qed.

(** Python's [int] reads back the text [repr] gives for an integer. *)
Lemma py_int_py_repr z s : py_repr z = Some s -> py_int s = Some z.
Proof.
  unfold py_repr.
  destruct (Z.of_nat (length match int_repr z with
                             | 45 :: ds => ds
                             | ds => ds
                             end) <=? digit_limit) eqn:Hlim; [|discriminate].
  intros [= <-]. apply Z.leb_le in Hlim.
  unfold py_int. rewrite (map_to_ascii_below _ (int_repr_below z)).
  rewrite (strip_no_space _ (int_repr_no_space z)).
  pose proof (DecimalZ.of_to z) as Hz.
  assert (match Z.to_int z with
          | Decimal.Pos d | Decimal.Neg d => d <> Decimal.Nil
          end) as Hnil.
  { destruct z; cbn [Z.to_int]; try apply DecimalPos.Unsigned.to_uint_nonnil.
    discriminate. }
  unfold int_repr in *.
  destruct (Z.to_int z) as [d|d]; cbn [Z.of_int] in Hz; unfold Z.of_uint in Hz;
    rewrite of_uint_value in Hz; subst z.
  - assert (match uint_digits d with
            | 45 :: ds => ds
            | ds => ds
            end = uint_digits d) as Hd
        by (destruct d; reflexivity).
    rewrite Hd in Hlim.
    assert (int_digits (uint_digits d) = Some (uint_value d 0)) as Hi.
    { unfold int_digits. rewrite count_digits_uint_digits.
      rewrite (proj2 (Z.ltb_ge _ _) Hlim).
      apply int_body_uint_digits. left. exact Hnil. }
    rewrite <- Hi. destruct d; [congruence|..]; reflexivity.
  - change (Z.opp <$> int_digits (uint_digits d) = Some (- uint_value d 0)).
    unfold int_digits. rewrite count_digits_uint_digits.
    rewrite (proj2 (Z.ltb_ge _ _) Hlim).
    rewrite (int_body_uint_digits d 0 false) by (left; exact Hnil).
    reflexivity.
Qed.

(** A 64-bit integer is far below the digit limit. *)
Lemma length_uint_digits d : length (uint_digits d) = Decimal.nb_digits d.
Proof. induction d; cbn [uint_digits length Decimal.nb_digits]; congruence. Qed.

Lemma nb_digits_double d :
  (Decimal.nb_digits (Decimal.Little.double d) <= S (Decimal.nb_digits d))%nat /\
  (Decimal.nb_digits (Decimal.Little.succ_double d) <= S (Decimal.nb_digits d))%nat.
Proof.
  induction d as [|d [IH1 IH2]|d [IH1 IH2]|d [IH1 IH2]|d [IH1 IH2]|d [IH1 IH2]
                  |d [IH1 IH2]|d [IH1 IH2]|d [IH1 IH2]|d [IH1 IH2]|d [IH1 IH2]];
    cbn [Decimal.Little.double Decimal.Little.succ_double Decimal.nb_digits];
    lia.
Qed.

Lemma nb_digits_to_little_uint p :
  (Decimal.nb_digits (Pos.to_little_uint p) <= Pos.to_nat (Pos.size p))%nat.
Proof.
  induction p as [p IH|p IH|]; cbn [Pos.to_little_uint Pos.size].
  - pose proof (proj2 (nb_digits_double (Pos.to_little_uint p))). lia.
  - pose proof (proj1 (nb_digits_double (Pos.to_little_uint p))). lia.
  - cbn. lia.
Qed.

Lemma int64_digits p :
  Z.pos p <= 2 ^ 63 ->
  (length (uint_digits (Pos.to_uint p)) <= 64)%nat.
Proof.
  intros Hp. rewrite length_uint_digits. unfold Pos.to_uint.
  rewrite DecimalFacts.nb_digits_rev.
  etransitivity; [apply nb_digits_to_little_uint|].
  pose proof (Pos.size_le p) as Hs.
  assert (Z.pos (2 ^ Pos.size p) <= Z.pos p~0) as Hz by exact Hs.
  rewrite Pos2Z.inj_pow, Pos2Z.inj_xO in Hz.
  destruct (Nat.le_gt_cases (Pos.to_nat (Pos.size p)) 64) as [|Hgt]; [assumption|].
  exfalso.
  assert (2 ^ 65 <= 2 ^ Z.pos (Pos.size p)) by (apply Z.pow_le_mono_r; lia).
  lia.
Qed.

Lemma py_repr_int64 n : in_int64 n = true -> py_repr n = Some (int_repr n).
Proof.
  unfold in_int64, int64_min, int64_max. intros H.
  apply andb_prop in H as [H1 H2]. apply Z.leb_le in H1, H2.
  unfold py_repr, int_repr, digit_limit.
  destruct n as [|p|p]; [reflexivity|..]; cbn [Z.to_int].
  - pose proof (int64_digits p ltac:(lia)) as Hl.
    assert (match uint_digits (Pos.to_uint p) with
            | 45 :: ds => ds
            | ds => ds
            end = uint_digits (Pos.to_uint p)) as ->
        by (destruct (Pos.to_uint p); reflexivity).
    rewrite (proj2 (Z.leb_le _ _)) by lia. reflexivity.
  - pose proof (int64_digits p ltac:(lia)) as Hl.
    rewrite (proj2 (Z.leb_le _ _)) by lia. reflexivity.
Qed.

End DecFacts.

Section UuidFacts.
Import Uuid.

Lemma hex_digit_is_hex d : 0 <= d < 16 -> is_hex (hex_digit d).
Proof. unfold hex_digit, is_hex. intros. zcases; lia. Qed.

Lemma hex_digit_inj d1 d2 :
  0 <= d1 < 16 -> 0 <= d2 < 16 -> hex_digit d1 = hex_digit d2 -> d1 = d2.
Proof. unfold hex_digit. intros ? ?. zcases; lia. Qed.

Lemma hex_fixed_length n v : length (hex_fixed n v) = n.
Proof.
  revert v. induction n as [|n IH]; intros v; cbn [hex_fixed]; [reflexivity|].
  rewrite length_app, IH. cbn. lia.
Qed.

Lemma hex_fixed_is_hex n v : Forall is_hex (hex_fixed n v).
Proof.
  revert v. induction n as [|n IH]; intros v; cbn [hex_fixed]; [constructor|].
  apply Forall_app. split; [apply IH|].
  constructor; [|constructor].
  apply hex_digit_is_hex, Z.mod_pos_bound. lia.
Qed.

Lemma hex_fixed_inj n v1 v2 :
  0 <= v1 < 16 ^ Z.of_nat n -> 0 <= v2 < 16 ^ Z.of_nat n ->
  hex_fixed n v1 = hex_fixed n v2 -> v1 = v2.
Proof.
  revert v1 v2. induction n as [|n IH]; intros v1 v2 H1 H2.
  - cbn in H1, H2. lia.
  - cbn [hex_fixed]. intros Heq.
    apply app_inj_2 in Heq as [Hq Hd]; [|reflexivity].
    injection Hd as Hd.
    rewrite Nat2Z.inj_succ, Z.pow_succ_r in H1, H2 by lia.
    apply hex_digit_inj in Hd; try (apply Z.mod_pos_bound; lia).
    apply IH in Hq.
    + rewrite (Z.div_mod v1 16), (Z.div_mod v2 16) by lia. congruence.
    + split; [apply Z.div_pos|apply Z.div_lt_upper_bound]; lia.
    + split; [apply Z.div_pos|apply Z.div_lt_upper_bound]; lia.
Qed.

Lemma dashed_inj h1 h2 :
  length h1 = 32%nat -> length h2 = 32%nat ->
  dashed h1 = dashed h2 -> h1 = h2.
Proof.
  intros L1 L2. unfold dashed. intros H.
  apply app_inj_1 in H as [A H]; [|rewrite !length_take; lia].
  apply (app_inj_1 [45] [45]) in H as [_ H]; [|reflexivity].
  apply app_inj_1 in H as [B H]; [|rewrite !length_take, !length_drop; lia].
  apply (app_inj_1 [45] [45]) in H as [_ H]; [|reflexivity].
  apply app_inj_1 in H as [C H]; [|rewrite !length_take, !length_drop; lia].
  apply (app_inj_1 [45] [45]) in H as [_ H]; [|reflexivity].
  apply app_inj_1 in H as [D H]; [|rewrite !length_take, !length_drop; lia].
  apply (app_inj_1 [45] [45]) in H as [_ H]; [|reflexivity].
  rewrite <- (take_drop 8 h1), <- (take_drop 8 h2), A. f_equal.
  rewrite <- (take_drop 4 (drop 8 h1)), <- (take_drop 4 (drop 8 h2)), B.
  f_equal. rewrite !drop_drop. cbn [Nat.add].
  rewrite <- (take_drop 4 (drop 12 h1)), <- (take_drop 4 (drop 12 h2)), C.
  f_equal. rewrite !drop_drop. cbn [Nat.add].
  rewrite <- (take_drop 4 (drop 16 h1)), <- (take_drop 4 (drop 16 h2)), D.
  f_equal. rewrite !drop_drop. exact H.
Qed.

Lemma uuid_str_inj u1 u2 :
  0 <= u1 < 2 ^ 128 -> 0 <= u2 < 2 ^ 128 ->
  uuid_str u1 = uuid_str u2 -> u1 = u2.
Proof.
  intros H1 H2 H. unfold uuid_str in H.
  apply dashed_inj in H; try apply hex_fixed_length.
  apply hex_fixed_inj in H; [exact H|..]; change (16 ^ Z.of_nat 32) with (2 ^ 128); lia.
Qed.

Lemma uuid_str_length u : length (uuid_str u) = 36%nat.
Proof.
  unfold uuid_str, dashed. pose proof (hex_fixed_length 32 u).
  rewrite !length_app, !length_take, !length_drop. cbn [length]. lia.
Qed.

Lemma uuid_str_ascii u : Forall is_ascii (uuid_str u).
Proof.
  assert (Forall is_ascii (hex_fixed 32 u)) as Hh.
  { eapply Forall_impl; [apply hex_fixed_is_hex|].
    unfold is_hex, is_ascii. intros; lia. }
  assert (Forall is_ascii [45]) as Hd by (repeat constructor; unfold is_ascii; lia).
  unfold uuid_str, dashed.
  repeat (apply Forall_app; split);
    auto using Forall_take, Forall_drop.
Qed.

Lemma bits_below_pow2 x n :
  0 <= n -> (forall m, n <= m -> Z.testbit x m = false) -> 0 <= x < 2 ^ n.
Proof.
  intros Hn Hx.
  assert (x mod 2 ^ n = x) as <-.
  { apply Z.bits_inj'. intros m Hm.
    destruct (Z.lt_ge_cases m n).
    - apply Z.mod_pow2_bits_low; lia.
    - rewrite Z.mod_pow2_bits_high, Hx by lia. reflexivity. }
  apply Z.mod_pos_bound. apply Z.pow_pos_nonneg; lia.
Qed.

Lemma bits_above_pow2 x n m :
  0 <= x < 2 ^ n -> n <= m -> Z.testbit x m = false.
Proof.
  intros Hx Hm.
  destruct (Z.eq_dec x 0) as [->|]; [apply Z.bits_0|].
  apply Z.bits_above_log2; [lia|].
  assert (Z.log2 x < n); [|lia].
  apply Z.log2_lt_pow2; lia.
Qed.

Lemma uuid4_int_range r : 0 <= r < 2 ^ 128 -> 0 <= uuid4_int r < 2 ^ 128.
Proof.
  intros Hr. apply bits_below_pow2; [lia|]. intros m Hm.
  unfold uuid4_int.
  rewrite !Z.lor_spec, !Z.land_spec, !Z.lor_spec, !Z.land_spec.
  rewrite (bits_above_pow2 r 128 m) by lia.
  rewrite (bits_above_pow2 (Z.shiftl 0x8000 48) 128 m)
    by first [lia | vm_compute; split; easy].
  rewrite (bits_above_pow2 (Z.shiftl 4 76) 128 m)
    by first [lia | vm_compute; split; easy].
  reflexivity.
Qed.

(** The bits of a constant, checked one by one below [n] and all clear
    from [n] on. *)
Lemma testbit_table c (f : Z -> bool) (n : nat) :
  0 <= c < 2 ^ Z.of_nat n ->
  (forall i, Z.of_nat n <= i -> f i = false) ->
  forallb (fun j => Bool.eqb (Z.testbit c (Z.of_nat j)) (f (Z.of_nat j)))
          (seq 0 n) = true ->
  forall i, 0 <= i -> Z.testbit c i = f i.
Proof.
  intros Hc Hf Ht i Hi.
  destruct (Z.lt_ge_cases i (Z.of_nat n)) as [Hlt|Hge].
  - rewrite forallb_forall in Ht.
    specialize (Ht (Z.to_nat i)). rewrite Z2Nat.id in Ht by lia.
    apply Bool.eqb_prop, Ht, in_seq. lia.
  - rewrite (bits_above_pow2 c (Z.of_nat n) i), Hf by lia. reflexivity.
Qed.

Lemma uuid4_int_testbit r i :
  0 <= i ->
  Z.testbit (uuid4_int r) i =
  if overwritten i then (i =? 63) || (i =? 78) else Z.testbit r i.
Proof.
  intros Hi. unfold uuid4_int, overwritten.
  rewrite !Z.lor_spec, !Z.land_spec, !Z.lor_spec, !Z.land_spec.
  rewrite !Z.lnot_spec by lia.
  rewrite (testbit_table (Z.shiftl 0xc000 48)
             (fun i => (i =? 62) || (i =? 63)) 64 ltac:(vm_compute; split; easy))
    by first [exact Hi | vm_compute; reflexivity | intros; zcases; reflexivity].
  rewrite (testbit_table (Z.shiftl 0x8000 48)
             (fun i => i =? 63) 64 ltac:(vm_compute; split; easy))
    by first [exact Hi | vm_compute; reflexivity | intros; zcases; reflexivity].
  rewrite (testbit_table (Z.shiftl 0xf000 64)
             (fun i => (76 <=? i) && (i <=? 79)) 80
             ltac:(vm_compute; split; easy))
    by first [exact Hi | vm_compute; reflexivity | intros; zcases; reflexivity].
  rewrite (testbit_table (Z.shiftl 4 76)
             (fun i => i =? 78) 79 ltac:(vm_compute; split; easy))
    by first [exact Hi | vm_compute; reflexivity | intros; zcases; reflexivity].
  destruct (Z.testbit r i); zcases; reflexivity.
Qed.

(** Two random numbers give the same UUID exactly when they agree on the
    bits that are kept. *)
Lemma uuid4_int_eq_iff r1 r2 :
  uuid4_int r1 = uuid4_int r2 <->
  forall i, 0 <= i -> overwritten i = false -> Z.testbit r1 i = Z.testbit r2 i.
Proof.
  split.
  - intros H i Hi Ho. apply (f_equal (fun u => Z.testbit u i)) in H.
    rewrite !uuid4_int_testbit, Ho in H by exact Hi. exact H.
  - intros H. apply Z.bits_inj'. intros i Hi.
    rewrite !uuid4_int_testbit by exact Hi.
    destruct (overwritten i) eqn:Ho; [reflexivity|]. apply H; assumption.
Qed.

End UuidFacts.

(** * Facts about runs *)

Section RunFacts.
Context (E : env).

Lemma run_bind {A B} (p : prog A) (f : A -> prog B) w :
  run E (p ≫= f) w =
  match run E p w with
  | (Ok a, w') => run E (f a) w'
  | (Raised e, w') => (Raised e, w')
  end.
Proof.
  change (p ≫= f) with (bind p f).
  revert w. induction p as [a|e|c k IH|k IH|url k IH|line k IH]; intros w;
    cbn [bind run]; try reflexivity.
  - destruct (Redis.exec _ c (redis w)) as [r d]. apply IH.
  - apply IH.
  - apply IH.
  - apply IH.
Qed.

Lemma run_try_except {A} (p : prog A) h w :
  run E (try_except p h) w =
  match run E p w with
  | (Ok a, w') => (Ok a, w')
  | (Raised e, w') => run E (h e) w'
  end.
Proof.
  revert w. induction p as [a|e|c k IH|k IH|url k IH|line k IH]; intros w;
    cbn [try_except run]; try reflexivity.
  - destruct (Redis.exec _ c (redis w)) as [r d]. apply IH.
  - apply IH.
  - apply IH.
  - apply IH.
Qed.

Lemma trace_bind {A B} (p : prog A) (f : A -> prog B) w :
  trace E (p ≫= f) w =
  trace E p w ++
  match run E p w with
  | (Ok a, w') => trace E (f a) w'
  | (Raised e, w') => []
  end.
Proof.
  change (p ≫= f) with (bind p f).
  revert w. induction p as [a|e|c k IH|k IH|url k IH|line k IH]; intros w;
    cbn [bind run trace]; try reflexivity.
  - destruct (Redis.exec _ c (redis w)) as [r d]. cbn [app]. f_equal. apply IH.
  - apply IH.
  - apply IH.
  - apply IH.
Qed.

(** A program that can only send commands in [P] only sends such commands
    when run. *)
Lemma sends_only_trace {A} P (p : prog A) w :
  sends_only P p -> Forall P (trace E p w).
Proof.
  intros H. revert w. induction H; intros w; cbn [trace]; auto.
  destruct (Redis.exec _ c (redis w)) as [r d]. constructor; auto.
Qed.

End RunFacts.

Lemma sends_only_bind {A B} P (p : prog A) (f : A -> prog B) :
  sends_only P p -> (forall a, sends_only P (f a)) -> sends_only P (p ≫= f).
Proof.
  intros Hp Hf. change (p ≫= f) with (bind p f).
  induction Hp; cbn [bind]; auto; constructor; auto.
Qed.

Lemma sends_only_try_except {A} P (p : prog A) h :
  sends_only P p -> (forall e, sends_only P (h e)) ->
  sends_only P (try_except p h).
Proof.
  intros Hp Hh. induction Hp; cbn [try_except]; auto; constructor; auto.
Qed.

Lemma sends_only_for_each {A} P (l : list A) body :
  (forall x, sends_only P (body x)) -> sends_only P (for_each l body).
Proof.
  intros Hb. induction l as [|x l IH]; cbn [for_each]; [constructor|].
  apply sends_only_bind; auto.
Qed.

Lemma sends_only_mono {A} (P Q : Redis.command -> Prop) (p : prog A) :
  (forall c, P c -> Q c) -> sends_only P p -> sends_only Q p.
Proof. intros HPQ H. induction H; constructor; auto. Qed.

(** Commands that only read leave the database as it was. *)
Lemma read_only_exec now c d :
  Redis.read_only c = true -> (Redis.exec now c d).2 = d.
Proof.
  destruct c; try discriminate; intros _; cbn [Redis.exec];
    destruct (Redis.lookup_live now d key) as [[[b|l] t]|]; reflexivity.
Qed.

(** ** The client's calls *)

Section ClientFacts.
Context (E : env).

Lemma run_encode_text s b w :
  Utf8.encode s = Some b -> run E (Client.encode_text s) w = (Ok b, w).
Proof. unfold Client.encode_text. intros ->. reflexivity. Qed.

Lemma run_client_get key k w :
  Utf8.encode key = Some k ->
  run E (Client.get key) w =
  (match Redis.lookup_live (now E w) (redis w) k with
   | None => Ok PNone
   | Some (Redis.Entry (Redis.VString b) _) => Ok (PBytes b)
   | Some (Redis.Entry (Redis.VList _) _) => Raised ResponseError
   end, after w (redis w)).
Proof.
  intros Hk. unfold Client.get. rewrite run_bind, (run_encode_text _ _ _ Hk).
  cbn [run Redis.exec]. unfold now, after.
  destruct (Redis.lookup_live _ _ k) as [[[b|l] t]|]; reflexivity.
Qed.

Lemma run_client_set key k val v w :
  Utf8.encode key = Some k -> Client.encode_arg val = Ret v ->
  run E (Client.set key val) w =
  (Ok true, after w (<[k := Redis.Entry (Redis.VString v) None]> (redis w))).
Proof.
  intros Hk Hv. unfold Client.set.
  rewrite run_bind, (run_encode_text _ _ _ Hk), run_bind, Hv. reflexivity.
Qed.

Lemma run_client_flushdb w :
  run E Client.flushdb w = (Ok true, after w ∅).
Proof. reflexivity. Qed.

End ClientFacts.

Section RedisFacts.
Import Redis.

Lemma string2ll_in_int64 b n : Dec.string2ll b = Some n -> Dec.in_int64 n = true.
Proof.
  unfold Dec.string2ll.
  destruct (match b with
            | 45 :: ds => Decimal.Neg <$> Dec.digits_uint ds
            | _ => Decimal.Pos <$> Dec.digits_uint b
            end) as [d|]; [|discriminate].
  destruct (bool_decide _); cbn [andb]; [|discriminate].
  destruct (Dec.in_int64 (Z.of_int d)) eqn:Hr; [|discriminate].
  intros [= <-]. exact Hr.
Qed.

Lemma counter_value_in_int64 t d key n :
  counter_value t d key = Some n -> Dec.in_int64 n = true.
Proof.
  unfold counter_value.
  destruct (lookup_live t d key) as [[[b|l] x]|]; try discriminate.
  - apply string2ll_in_int64.
  - intros [= <-]. reflexivity.
Qed.

Lemma lookup_live_insert_eq t d key e :
  expired t e = false -> lookup_live t (<[key := e]> d) key = Some e.
Proof. intros He. unfold lookup_live. rewrite lookup_insert_eq, He. reflexivity. Qed.

Lemma lookup_live_insert_ne t d key key' e :
  key <> key' -> lookup_live t (<[key := e]> d) key' = lookup_live t d key'.
Proof. intros Hne. unfold lookup_live. rewrite lookup_insert_ne by exact Hne. reflexivity. Qed.

Lemma lookup_live_expired t d key v x :
  lookup_live t d key = Some (Entry v x) -> expired t (Entry v x) = false.
Proof.
  unfold lookup_live. destruct (d !! key) as [e|]; [|discriminate].
  destruct (expired t e) eqn:He; [discriminate|]. intros [= ->]. exact He.
Qed.

(** The server's increment on a key that stands for [n]. *)
Lemma exec_incr t d key n :
  counter_value t d key = Some n -> n < Dec.int64_max ->
  exists d',
    exec t (INCR key) d = (Integer (n + 1), d') /\
    counter_value t d' key = Some (n + 1) /\
    (forall key', key <> key' -> d' !! key' = d !! key').
Proof.
  intros Hc Hn. pose proof (counter_value_in_int64 _ _ _ _ Hc) as Hr.
  assert (Dec.in_int64 (n + 1) = true) as Hr'.
  { unfold Dec.in_int64, Dec.int64_min, Dec.int64_max in *. lia. }
  unfold counter_value in Hc. cbn [exec].
  destruct (lookup_live t d key) as [[[b|l] x]|] eqn:Hl; try discriminate.
  - rewrite Hc. rewrite (proj2 (Z.ltb_lt _ _) Hn).
    eexists. split; [reflexivity|]. split.
    + unfold counter_value. rewrite lookup_live_insert_eq.
      * apply string2ll_int_repr, Hr'.
      * apply (lookup_live_expired _ _ _ _ _ Hl).
    + intros key' Hne. apply lookup_insert_ne, Hne.
  - injection Hc as <-. eexists. split; [reflexivity|]. split.
    + unfold counter_value. rewrite lookup_live_insert_eq by reflexivity.
      reflexivity.
    + intros key' Hne. apply lookup_insert_ne, Hne.
Qed.

End RedisFacts.

Section CounterFacts.
Context (E : env).
Lemma run_client_incr key k n w :
  Utf8.encode key = Some k ->
  counter_value (now E w) (redis w) k = Some n -> n < Dec.int64_max ->
  exists d',
    run E (Client.incr key) w = (Ok (n + 1), after w d') /\
    counter_value (now E w) d' k = Some (n + 1) /\
    (forall k', k <> k' -> d' !! k' = redis w !! k').
Proof.
  intros Hk Hc Hn. unfold Client.incr.
  rewrite run_bind, (run_encode_text _ _ _ _ Hk). cbn [run].
  destruct (exec_incr _ _ _ _ Hc Hn) as (d' & He & Hc' & Ho).
  unfold now in *. rewrite He. exists d'. auto.
Qed.

Lemma run_client_expire key k v x seconds w :
  Utf8.encode key = Some k ->
  Redis.lookup_live (now E w) (redis w) k = Some (Redis.Entry v x) ->
  0 < seconds ->
  run E (Client.expire key seconds) w =
  (Ok true,
   after w (<[k := Redis.Entry v (Some (now E w + 1000 * seconds))]> (redis w))).
Proof.
  intros Hk Hl Hs. unfold Client.expire.
  rewrite run_bind, (run_encode_text _ _ _ _ Hk). cbn [run Redis.exec].
  unfold now in *. rewrite Hl.
  rewrite (proj2 (Z.leb_gt _ _)) by lia. reflexivity.
Qed.

End CounterFacts.

Section TraceFacts.
Context (E : env).

Lemma trace_client_get key k w :
  Utf8.encode key = Some k -> trace E (Client.get key) w = [Redis.GET k].
Proof.
  intros Hk. unfold Client.get.
  rewrite trace_bind, (run_encode_text E _ _ _ Hk).
  unfold Client.encode_text. rewrite Hk. cbn [trace app].
  destruct (Redis.exec _ _ _) as [[] d]; reflexivity.
Qed.

Lemma trace_client_incr key k w :
  Utf8.encode key = Some k -> trace E (Client.incr key) w = [Redis.INCR k].
Proof.
  intros Hk. unfold Client.incr.
  rewrite trace_bind, (run_encode_text E _ _ _ Hk).
  unfold Client.encode_text. rewrite Hk. cbn [trace app].
  destruct (Redis.exec _ _ _) as [[] d]; reflexivity.
Qed.

Lemma trace_client_set key k val v w :
  Utf8.encode key = Some k -> Client.encode_arg val = Ret v ->
  trace E (Client.set key val) w = [Redis.SET k v].
Proof.
  intros Hk Hv. unfold Client.set.
  rewrite trace_bind, (run_encode_text E _ _ _ Hk).
  unfold Client.encode_text at 1. rewrite Hk. cbn [trace app].
  rewrite trace_bind, Hv. cbn [trace run app]. reflexivity.
Qed.

Lemma trace_client_expire key k seconds w :
  Utf8.encode key = Some k ->
  trace E (Client.expire key seconds) w = [Redis.EXPIRE k seconds].
Proof.
  intros Hk. unfold Client.expire.
  rewrite trace_bind, (run_encode_text E _ _ _ Hk).
  unfold Client.encode_text. rewrite Hk. cbn [trace app].
  destruct (Redis.exec _ _ _) as [[] d]; reflexivity.
Qed.

End TraceFacts.

(** * exercise.py *)

Section ExerciseFacts.
Context (E : env).

Lemma run_decode_value value default w :
  run E (RedisCache._decode_value value default) w =
  (Ok match value with
      | PBytes b =>
          match Utf8.decode Utf8.Strict b with
          | Some s => PStr s
          | None => default
          end
      | _ => default
      end, w).
Proof.
  unfold RedisCache._decode_value. rewrite run_try_except, run_bind.
  destruct value as [|s|b|z|r]; try reflexivity.
  cbn [py_decode]. destruct (Utf8.decode Utf8.Strict b); reflexivity.
Qed.

Lemma encode_drawn_key w : Utf8.encode (drawn_key E w) = Some (drawn_key E w).
Proof. apply utf8_encode_ascii, uuid_str_ascii. Qed.

Lemma run_store data v w :
  Client.encode_arg data = Ret v ->
  run E (RedisCache.store data) w =
  (Ok (PStr (drawn_key E w)),
   after (after w (redis w))
         (<[drawn_key E w := Redis.Entry (Redis.VString v) None]> (redis w))).
Proof.
  intros Hv. unfold RedisCache.store. rewrite run_bind. cbn [run].
  fold (draw E w). fold (drawn_key E w). fold (after w (redis w)).
  rewrite run_bind, (run_client_set E _ _ _ _ _ (encode_drawn_key w) Hv).
  reflexivity.
Qed.

Lemma run_get_default key k w :
  Utf8.encode key = Some k ->
  run E (RedisCache.get key None) w =
  match Redis.lookup_live (now E w) (redis w) k with
  | None => (Ok (PStr []), after w (redis w))
  | Some (Redis.Entry (Redis.VString b) _) =>
      (Ok (PStr (default [] (Utf8.decode Utf8.Strict b))), after w (redis w))
  | Some (Redis.Entry (Redis.VList _) _) =>
      (Raised ResponseError, after w (redis w))
  end.
Proof.
  intros Hk. unfold RedisCache.get.
  rewrite run_bind, (run_client_get E _ _ _ Hk).
  destruct (Redis.lookup_live _ _ k) as [[[b|l] t]|]; try reflexivity.
  rewrite run_decode_value. unfold RedisCache._decode_value_default.
  destruct (Utf8.decode Utf8.Strict b); reflexivity.
Qed.

Lemma run_get_str key w :
  run E (RedisCache.get_str key) w = run E (RedisCache.get key None) w.
Proof.
  unfold RedisCache.get_str, RedisCache.get. rewrite !run_bind. reflexivity.
Qed.

Lemma encode_arg_int z s :
  Dec.py_repr z = Some s -> Client.encode_arg (PInt z) = Ret (Dec.int_repr z).
Proof.
  intros Hs. cbn [Client.encode_arg]. rewrite Hs.
  unfold Dec.py_repr in Hs. case_match; [|discriminate]. injection Hs as <-.
  unfold Client.encode_text.
  rewrite (utf8_encode_ascii _ (int_repr_ascii z)). reflexivity.
Qed.

Lemma py_repr_int_repr z s : Dec.py_repr z = Some s -> s = Dec.int_repr z.
Proof. unfold Dec.py_repr. case_match; [|discriminate]. congruence. Qed.

(** An integer within the digit limit comes back through [get_int]. *)
Lemma store_get_int z s w :
  Dec.py_repr z = Some s ->
  exists key w1 w2,
    run E (RedisCache.store (PInt z)) w = (Ok (PStr key), w1) /\
    run E (RedisCache.get_int key) w1 = (Ok (PInt z), w2).
Proof.
  intros Hs.
  eexists _, _, _. split; [apply (run_store _ _ _ (encode_arg_int z s Hs))|].
  unfold RedisCache.get_int, RedisCache.get.
  rewrite run_bind, (run_client_get E _ _ _ (encode_drawn_key w)).
  cbn [redis after]. rewrite lookup_live_insert_eq by reflexivity.
  rewrite run_bind. cbn [py_decode].
  rewrite (utf8_decode_ascii _ _ (int_repr_ascii z)). cbn [run].
  rewrite run_bind. unfold py_int.
  rewrite (py_repr_int_repr _ _ Hs) in Hs.
  rewrite (py_int_py_repr _ _ Hs). reflexivity.
Qed.

End ExerciseFacts.

(** C9. Constructing a [RedisCache] flushes the database: when [__init__]
    has returned, the store holds no key at all, whatever it held before. *)
Theorem init_flushes_database (E : env) (w : world) :
  (run E RedisCache.__init__ w).1 = Ok tt /\
  forall key : list Z, redis (run E RedisCache.__init__ w).2 !! key = None.
Proof.
  unfold RedisCache.__init__. rewrite run_bind, run_client_flushdb.
  cbn. split; [reflexivity|]. intros key. apply lookup_empty.
Qed.

(** C10. [get] on a key that the store does not hold (it was never set, or
    it has expired), called without a decode function, returns the empty
    string: it neither raises nor returns [None]. *)
Theorem get_missing_key_returns_empty (E : env) (w : world) (key : pystr)
    (k : list Z) :
  Utf8.encode key = Some k ->
  Redis.lookup_live (now E w) (redis w) k = None ->
  (run E (RedisCache.get key None) w).1 = Ok (PStr []).
Proof.
  intros Hk Hl. rewrite (run_get_default E _ _ _ Hk), Hl. reflexivity.
Qed.

Lemma get_missing_key_witness :
  (run sample_env (RedisCache.get (lit "nokey") None) empty_world).1
  = Ok (PStr []).
Proof.
  apply (get_missing_key_returns_empty sample_env empty_world (lit "nokey")
           (lit "nokey")); reflexivity.
Defined.

(** C1, as the claim states it, fails: the integer 5 is stored as the text
    of its [repr], and [get] returns the string ["5"], not the integer. *)
Lemma store_get_int_differs :
  let key := drawn_key sample_env empty_world in
  let w1 := (run sample_env (RedisCache.store (PInt 5)) empty_world).2 in
  (run sample_env (RedisCache.store (PInt 5)) empty_world).1 = Ok (PStr key) /\
  (run sample_env (RedisCache.get key None) w1).1 = Ok (PStr (lit "5")) /\
  PStr (lit "5") <> PInt 5.
Proof. vm_compute. repeat split; discriminate. Qed.

(** C1, amended. [store] keeps the bytes the client makes of the value, and
    [get] on the returned key yields a [str]: the UTF-8 text of those bytes,
    or the empty string when they are not UTF-8.  For a stored [str] this
    is the stored value itself. *)
Theorem store_get_text (E : env) (w : world) (data : pyval) (v : list Z) :
  Client.encode_arg data = Ret v ->
  exists key got w1 w2,
    run E (RedisCache.store data) w = (Ok (PStr key), w1) /\
    run E (RedisCache.get key None) w1 = (Ok got, w2) /\
    got = PStr (default [] (Utf8.decode Utf8.Strict v)) /\
    (forall s, data = PStr s -> got = data).
Proof.
  intros Hv. eexists _, _, _, _.
  split; [apply (run_store E _ _ _ Hv)|].
  rewrite (run_get_default E _ _ _ (encode_drawn_key E w)).
  cbn [redis after]. rewrite lookup_live_insert_eq by reflexivity.
  split; [reflexivity|]. split; [reflexivity|].
  intros s ->. cbn [Client.encode_arg] in Hv. unfold Client.encode_text in Hv.
  destruct (Utf8.encode s) as [b|] eqn:Hs; [|discriminate].
  injection Hv as <-. rewrite (utf8_decode_encode _ _ _ Hs). reflexivity.
Qed.

Lemma store_get_text_witness :
  exists key got w1 w2,
    run sample_env (RedisCache.store (PStr [104; 233; 8364])) empty_world
    = (Ok (PStr key), w1) /\
    run sample_env (RedisCache.get key None) w1 = (Ok got, w2) /\
    got = PStr (default [] (Utf8.decode Utf8.Strict
                              [104; 195; 169; 226; 130; 172])) /\
    (forall s, PStr [104; 233; 8364] = PStr s -> got = PStr [104; 233; 8364]).
Proof.
  apply (store_get_text sample_env empty_world (PStr [104; 233; 8364])
           [104; 195; 169; 226; 130; 172]).
  reflexivity.
Defined.

(** C8, as the claim states it, fails: nothing in [store] makes the keys
    unique.  Two calls whose random draws differ only in the bits that
    [uuid4] overwrites return the same identifier. *)
Lemma store_keys_collide :
  let r1 := run colliding_env (RedisCache.store (PInt 1)) empty_world in
  let r2 := run colliding_env (RedisCache.store (PInt 2)) r1.2 in
  draw colliding_env empty_world <> draw colliding_env r1.2 /\
  r1.1 = Ok (PStr (lit "00000000-0000-4000-8000-000000000000")) /\
  r2.1 = r1.1.
Proof. vm_compute. repeat split; discriminate. Qed.

(** C8, amended. Two calls to [store] return the same identifier exactly
    when their random draws agree on every bit that [uuid4] keeps, the 122
    bits outside the variant and version fields; otherwise the identifiers
    are distinct. *)
Theorem store_keys_equal_iff (E1 E2 : env) (w1 w2 : world) (d1 d2 : pyval)
    (v1 v2 : list Z) :
  Client.encode_arg d1 = Ret v1 ->
  Client.encode_arg d2 = Ret v2 ->
  exists k1 k2 w1' w2',
    run E1 (RedisCache.store d1) w1 = (Ok (PStr k1), w1') /\
    run E2 (RedisCache.store d2) w2 = (Ok (PStr k2), w2') /\
    (k1 = k2 <->
     forall i, 0 <= i -> Uuid.overwritten i = false ->
               Z.testbit (draw E1 w1) i = Z.testbit (draw E2 w2) i).
Proof.
  intros H1 H2. eexists _, _, _, _.
  split; [apply (run_store E1 _ _ _ H1)|].
  split; [apply (run_store E2 _ _ _ H2)|].
  rewrite <- uuid4_int_eq_iff.
  unfold drawn_key. split; [|congruence].
  assert (forall E w, 0 <= draw E w < 2 ^ 128) as Hd.
  { intros E w. apply Z.mod_pos_bound. lia. }
  apply uuid_str_inj; apply uuid4_int_range, Hd.
Qed.

Lemma store_keys_equal_iff_witness :
  exists k1 k2 w1' w2',
    run sample_env (RedisCache.store (PInt 1)) empty_world
    = (Ok (PStr k1), w1') /\
    run colliding_env (RedisCache.store (PBytes [255])) empty_world
    = (Ok (PStr k2), w2') /\
    (k1 = k2 <->
     forall i, 0 <= i -> Uuid.overwritten i = false ->
               Z.testbit (draw sample_env empty_world) i
               = Z.testbit (draw colliding_env empty_world) i).
Proof.
  apply (store_keys_equal_iff sample_env colliding_env empty_world empty_world
           (PInt 1) (PBytes [255]) [49] [255]); reflexivity.
Defined.

(** C3 fails in [get_int]. Where the key holds bytes that are not UTF-8,
    decoding them fails; [get] without a decode function and [get_str] fall
    back to the empty string, but [get_int] drops the bytes, hands the
    empty text to [int], and the [ValueError] reaches the caller: no
    default is returned, where the docstring of [get_int] promises 0. *)
Lemma get_int_raises_on_undecodable :
  (run sample_env (Client.get (lit "k")) undecodable_world).1
  = Ok (PBytes [255]) /\
  Utf8.decode Utf8.Strict [255] = None /\
  (run sample_env (RedisCache.get (lit "k") None) undecodable_world).1
  = Ok (PStr []) /\
  (run sample_env (RedisCache.get_str (lit "k")) undecodable_world).1
  = Ok (PStr []) /\
  (run sample_env (RedisCache.get_int (lit "k")) undecodable_world).1
  = Raised ValueError.
Proof. vm_compute. repeat split. Qed.

(** X19. When decoding the retrieved value as UTF-8 fails, [get] without a
    decode function and [get_str] return the empty string, the default of
    [_decode_value]'s parameter; [_decode_value] itself returns whatever
    default it is given. *)
Theorem get_falls_back_to_empty (E : env) (w : world) (key : pystr)
    (value : pyval) (e : exn) :
  (run E (Client.get key) w).1 = Ok value ->
  py_decode value Utf8.Strict = Throw e ->
  (run E (RedisCache.get key None) w).1 = Ok (PStr []) /\
  (run E (RedisCache.get_str key) w).1 = Ok (PStr []) /\
  (forall default w',
     run E (RedisCache._decode_value value default) w' = (Ok default, w')).
Proof.
  intros Hg Hd.
  assert (forall default w',
            run E (RedisCache._decode_value value default) w'
            = (Ok default, w')) as Hv.
  { intros default w'. rewrite run_decode_value.
    destruct value as [|s|b|z|r]; try reflexivity.
    cbn [py_decode] in Hd. destruct (Utf8.decode Utf8.Strict b);
      [discriminate|reflexivity]. }
  rewrite run_get_str. unfold RedisCache.get. rewrite run_bind.
  destruct (run E (Client.get key) w) as [[v|x] w1]; cbn [fst] in Hg;
    [|discriminate].
  injection Hg as ->. rewrite Hv. auto.
Qed.

Lemma get_falls_back_to_empty_witness :
  (run sample_env (RedisCache.get (lit "k") None) undecodable_world).1
  = Ok (PStr []) /\
  (run sample_env (RedisCache.get_str (lit "k")) undecodable_world).1
  = Ok (PStr []) /\
  (forall default w',
     run sample_env (RedisCache._decode_value (PBytes [255]) default) w'
     = (Ok default, w')).
Proof.
  apply (get_falls_back_to_empty sample_env undecodable_world (lit "k")
           (PBytes [255]) UnicodeDecodeError); reflexivity.
Defined.

(** * The commands each operation sends *)

(** Walk through a program: binds, handlers, loops, events and the case
    distinctions in between. *)
Ltac sends_step :=
  first
    [ apply sends_only_bind
    | apply sends_only_try_except
    | apply sends_only_for_each
    | apply so_ret
    | apply so_throw
    | apply so_call
    | apply so_urandom
    | apply so_http
    | apply so_print
    | match goal with
      | |- sends_only _ (match ?x with _ => _ end) => destruct x
      | |- sends_only _ (if ?x then _ else _) => destruct x
      | |- forall _, _ => intro
      end ].

Section SendsFacts.
Context (P : Redis.command -> Prop).

Lemma sends_encode_text s : sends_only P (Client.encode_text s).
Proof. unfold Client.encode_text. repeat sends_step. Qed.


Lemma sends_encode_arg v : sends_only P (Client.encode_arg v).
Proof.
  destruct v as [|s|b|z|r]; cbn [Client.encode_arg];
    auto using sends_encode_text; try constructor.
  destruct (Dec.py_repr z); auto using sends_encode_text; constructor.
Qed.

Lemma sends_py_decode v e : sends_only P (py_decode v e).
Proof. unfold py_decode. repeat sends_step. Qed.

Lemma sends_py_int s : sends_only P (py_int s).
Proof. unfold py_int. repeat sends_step. Qed.

Lemma sends_decode_value v d : sends_only P (RedisCache._decode_value v d).
Proof.
  unfold RedisCache._decode_value. repeat sends_step; apply sends_py_decode.
Qed.

Lemma sends_client_get key :
  (forall k, P (Redis.GET k)) -> sends_only P (Client.get key).
Proof.
  intros HP. unfold Client.get.
  apply sends_only_bind; [apply sends_encode_text|]. intros k.
  apply so_call; [apply HP|]. intros r. destruct r; constructor.
Qed.

Lemma sends_client_set key val :
  (forall k v, P (Redis.SET k v)) -> sends_only P (Client.set key val).
Proof.
  intros HP. unfold Client.set.
  apply sends_only_bind; [apply sends_encode_text|]. intros k.
  apply sends_only_bind; [apply sends_encode_arg|]. intros v.
  apply so_call; [apply HP|]. intros r. destruct r; constructor.
Qed.

Lemma sends_client_incr key :
  (forall k, P (Redis.INCR k)) -> sends_only P (Client.incr key).
Proof.
  intros HP. unfold Client.incr.
  apply sends_only_bind; [apply sends_encode_text|]. intros k.
  apply so_call; [apply HP|]. intros r. destruct r; constructor.
Qed.

Lemma sends_client_expire key s :
  (forall k, P (Redis.EXPIRE k s)) -> sends_only P (Client.expire key s).
Proof.
  intros HP. unfold Client.expire.
  apply sends_only_bind; [apply sends_encode_text|]. intros k.
  apply so_call; [apply HP|]. intros r. destruct r; constructor.
Qed.

Lemma sends_client_rpush key val :
  (forall k v, P (Redis.RPUSH k v)) -> sends_only P (Client.rpush key val).
Proof.
  intros HP. unfold Client.rpush.
  apply sends_only_bind; [apply sends_encode_text|]. intros k.
  apply sends_only_bind; [apply sends_encode_arg|]. intros v.
  apply so_call; [apply HP|]. intros r. destruct r; constructor.
Qed.

Lemma sends_client_lrange key a b :
  (forall k, P (Redis.LRANGE k a b)) -> sends_only P (Client.lrange key a b).
Proof.
  intros HP. unfold Client.lrange.
  apply sends_only_bind; [apply sends_encode_text|]. intros k.
  apply so_call; [apply HP|]. intros r. destruct r; constructor.
Qed.

End SendsFacts.

Lemma sends_get_default_get key : sends_only is_get (RedisCache.get key None).
Proof.
  unfold RedisCache.get.
  apply sends_only_bind; [apply sends_client_get; intros; exact I|].
  intros v. apply sends_decode_value.
Qed.

Lemma sends_get_str_get key : sends_only is_get (RedisCache.get_str key).
Proof.
  unfold RedisCache.get_str, RedisCache.get.
  apply sends_only_bind; [apply sends_client_get; intros; exact I|].
  intros v. apply sends_decode_value.
Qed.

Lemma sends_get_int_get key : sends_only is_get (RedisCache.get_int key).
Proof.
  unfold RedisCache.get_int, RedisCache.get.
  apply sends_only_bind; [apply sends_client_get; intros; exact I|].
  intros v. apply sends_only_bind; [apply sends_py_decode|].
  intros s. apply sends_only_bind; [apply sends_py_int|].
  intros n. constructor.
Qed.

Lemma sends_replay_reads func :
  sends_only get_or_lrange (RedisCache.replay func).
Proof.
  unfold RedisCache.replay.
  apply sends_only_bind; [apply sends_client_get; intros; exact I|].
  intros present.
  apply sends_only_bind.
  { destruct (truthy present); [|constructor].
    apply sends_only_bind; [apply sends_client_get; intros; exact I|]. intros v.
    apply sends_only_bind; [apply sends_py_decode|]. intros s.
    apply sends_py_int. }
  intros n. apply sends_only_bind; [repeat constructor|]. intros _.
  apply sends_only_bind; [apply sends_client_lrange; intros; split; reflexivity|].
  intros ins.
  apply sends_only_bind; [apply sends_client_lrange; intros; split; reflexivity|].
  intros outs.
  apply sends_only_for_each. intros io.
  apply sends_only_bind; [apply sends_py_decode|]. intros i.
  apply sends_only_bind; [apply sends_py_decode|]. intros o.
  repeat constructor.
Qed.

Lemma is_get_reads c : is_get c -> reads c.
Proof. destruct c; cbn; intros H; try contradiction; reflexivity. Qed.

Lemma get_or_lrange_reads c : get_or_lrange c -> reads c.
Proof. destruct c; cbn; intros H; try contradiction; reflexivity. Qed.

Lemma sends_get_default key : sends_only reads (RedisCache.get key None).
Proof. exact (sends_only_mono _ _ _ is_get_reads (sends_get_default_get key)). Qed.

Lemma sends_get_str key : sends_only reads (RedisCache.get_str key).
Proof. exact (sends_only_mono _ _ _ is_get_reads (sends_get_str_get key)). Qed.

Lemma sends_get_int key : sends_only reads (RedisCache.get_int key).
Proof. exact (sends_only_mono _ _ _ is_get_reads (sends_get_int_get key)). Qed.

Lemma sends_replay func : sends_only reads (RedisCache.replay func).
Proof.
  exact (sends_only_mono _ _ _ get_or_lrange_reads (sends_replay_reads func)).
Qed.

Lemma sends_store data : sends_only is_set (RedisCache.store data).
Proof.
  unfold RedisCache.store.
  apply sends_only_bind; [repeat constructor|]. intros r.
  apply sends_only_bind; [apply sends_client_set; intros; exact I|].
  intros _. constructor.
Qed.

Lemma sends_store_function P args :
  (forall k v, P (Redis.SET k v)) ->
  sends_only P (__call__ RedisCache.store_function args).
Proof.
  intros HP. destruct args as [|data [|]]; try solve [constructor].
  cbn [__call__ RedisCache.store_function]. unfold RedisCache.store.
  apply sends_only_bind; [repeat constructor|]. intros r.
  apply sends_only_bind; [apply sends_client_set, HP|].
  intros _. constructor.
Qed.

Lemma sends_get_page url : sends_only page_command (Web.get_page url).
Proof.
  unfold Web.get_page, Web.count_url_access, Web.wrapper.
  apply sends_only_bind; [apply sends_client_get; intros; exact I|].
  intros cached. destruct (truthy cached).
  { apply sends_only_bind; [apply sends_py_decode|]. intros s. constructor. }
  apply sends_only_bind.
  { unfold Web.get_page_body. constructor. intros [text|e]; constructor. }
  intros html.
  apply sends_only_bind; [apply sends_client_incr; intros; exact I|]. intros _.
  apply sends_only_bind; [apply sends_client_set; intros; exact I|]. intros _.
  apply sends_only_bind; [apply sends_client_expire; intros; reflexivity|].
  intros _. constructor.
Qed.

(** The decorators send the increment and the two list-appends around what
    the decorated function sends. *)
Lemma sends_count_calls P method args :
  (forall k, P (Redis.INCR k)) ->
  sends_only P (__call__ method args) ->
  sends_only P (__call__ (count_calls method) args).
Proof.
  intros HP Hm. cbn [__call__ count_calls].
  apply sends_only_bind; [apply sends_client_incr, HP|]. intros _. exact Hm.
Qed.

Lemma sends_call_history P str_args method args :
  (forall k v, P (Redis.RPUSH k v)) ->
  sends_only P (__call__ method args) ->
  sends_only P (__call__ (call_history str_args method) args).
Proof.
  intros HP Hm. cbn [__call__ call_history].
  apply sends_only_bind; [apply sends_client_rpush, HP|]. intros _.
  apply sends_only_bind; [exact Hm|]. intros out.
  apply sends_only_bind; [apply sends_client_rpush, HP|]. intros _.
  constructor.
Qed.

(** C7, as the claim states it, fails: [__init__] changes the store by
    [flushdb], which is neither a read nor one of set, increment,
    list-append and expire. *)
Lemma init_sends_flushdb :
  trace sample_env RedisCache.__init__ undecodable_world = [Redis.FLUSHDB] /\
  ~ read_or_named Redis.FLUSHDB /\
  redis undecodable_world !! lit "k"
  = Some (Redis.Entry (Redis.VString [255]) None) /\
  redis (run sample_env RedisCache.__init__ undecodable_world).2 !! lit "k"
  = None.
Proof.
  split; [reflexivity|]. split; [|split; reflexivity].
  intros [H|H]; [discriminate H|exact H].
Qed.

(** C7, amended. [__init__] changes the store by one [flushdb], the only
    command it sends.  Every other operation sends reads and the mutations
    set, increment and expire, one command per call of the client: the body
    of [store] sends only set, and [store] under its decorator [count_calls]
    only increment and set; [get], [get_str] and [get_int] send only get;
    [replay] sends only get and lrange; [get_page] sends only get,
    increment, set and expire with ten seconds, in its program and so in
    every run. *)
Theorem commands_sent :
  (forall (E : env) (w : world),
     trace E RedisCache.__init__ w = [Redis.FLUSHDB]) /\
  (forall data, sends_only is_set (RedisCache.store data)) /\
  (forall args, sends_only incr_or_set (__call__ decorated_store args)) /\
  (forall key, sends_only is_get (RedisCache.get key None)) /\
  (forall key, sends_only is_get (RedisCache.get_str key)) /\
  (forall key, sends_only is_get (RedisCache.get_int key)) /\
  (forall func, sends_only get_or_lrange (RedisCache.replay func)) /\
  (forall url, sends_only page_command (Web.get_page url)) /\
  (forall (E : env) (w : world) (url : pystr),
     Forall page_command (trace E (Web.get_page url) w)).
Proof.
  repeat split.
  - apply sends_store.
  - intros args. unfold decorated_store.
    apply sends_count_calls; [intros; exact I|].
    apply sends_store_function. intros; exact I.
  - apply sends_get_default_get.
  - apply sends_get_str_get.
  - apply sends_get_int_get.
  - apply sends_replay_reads.
  - apply sends_get_page.
  - intros E w url. apply sends_only_trace, sends_get_page.
Qed.

(** * The decorators *)

Section DecoratorFacts.
Context (E : env).

Lemma counter_value_ext (t : Z) (d d' : gmap (list Z) Redis.entry) (k : list Z) :
  d' !! k = d !! k -> counter_value t d' k = counter_value t d k.
Proof. intros H. unfold counter_value, Redis.lookup_live. rewrite H. reflexivity. Qed.

Lemma encode_arg_cases data :
  (exists v, Client.encode_arg data = Ret v) \/
  (exists e, Client.encode_arg data = Throw e).
Proof.
  destruct data as [|s|b|z|r]; cbn [Client.encode_arg];
    try destruct (Dec.py_repr z);
    unfold Client.encode_text; eauto;
    match goal with |- context [Utf8.encode ?s] => destruct (Utf8.encode s) end;
    eauto.
Qed.

Lemma run_client_set_fail key k val e w :
  Utf8.encode key = Some k -> Client.encode_arg val = Throw e ->
  run E (Client.set key val) w = (Raised e, w).
Proof.
  intros Hk He. unfold Client.set.
  rewrite run_bind, (run_encode_text E _ _ _ Hk), run_bind, He. reflexivity.
Qed.

(** [store] writes under its fresh key and nowhere else. *)
Lemma store_keeps_key data w (k : list Z) :
  length k <> 36%nat ->
  redis (run E (RedisCache.store data) w).2 !! k = redis w !! k.
Proof.
  intros Hk. destruct (encode_arg_cases data) as [[v Hv]|[e He]].
  - rewrite (run_store E _ _ _ Hv). cbn [snd redis after].
    apply lookup_insert_ne. intros <-. apply Hk, uuid_str_length.
  - unfold RedisCache.store. rewrite run_bind. cbn [run].
    fold (draw E w). fold (drawn_key E w). fold (after w (redis w)).
    rewrite run_bind.
    rewrite (run_client_set_fail _ _ _ _ _ (encode_drawn_key E w) He).
    reflexivity.
Qed.

Lemma store_function_keeps_key args w (k : list Z) :
  length k <> 36%nat ->
  redis (run E (__call__ RedisCache.store_function args) w).2 !! k
  = redis w !! k.
Proof.
  intros Hk. destruct args as [|data [|]]; try reflexivity.
  apply store_keeps_key, Hk.
Qed.

(** A call through [count_calls] is the increment followed by the call. *)
Lemma run_count_calls method args k n w :
  Utf8.encode (__qualname__ method) = Some k ->
  counter_value (now E w) (redis w) k = Some n ->
  n < Dec.int64_max ->
  exists d',
    run E (__call__ (count_calls method) args) w
    = run E (__call__ method args) (after w d') /\
    counter_value (now E w) d' k = Some (n + 1) /\
    (forall k', k <> k' -> d' !! k' = redis w !! k').
Proof.
  intros Hk Hc Hn. cbn [__call__ count_calls].
  unfold RedisCache._get_function_key.
  destruct (run_client_incr E _ _ _ _ Hk Hc Hn) as (d' & Hr & Hc' & Ho).
  exists d'. rewrite run_bind, Hr. auto.
Qed.

End DecoratorFacts.

(** C4. Each invocation of a function decorated with [count_calls] adds
    exactly one to the counter stored under the function's qualified name,
    [__qualname__], in its UTF-8 encoding, provided the function itself
    leaves that key alone and the counter has not reached the largest
    64-bit integer. *)
Theorem count_calls_increments (E : env) (w : world) (method : pyfunc)
    (args : list pyval) (k : list Z) (n : Z) :
  Utf8.encode (__qualname__ method) = Some k ->
  counter_value (now E w) (redis w) k = Some n ->
  n < Dec.int64_max ->
  (forall w0, redis (run E (__call__ method args) w0).2 !! k = redis w0 !! k) ->
  counter_value (now E w)
    (redis (run E (__call__ (count_calls method) args) w).2) k
  = Some (n + 1).
Proof.
  intros Hk Hc Hn Hm.
  destruct (run_count_calls E method args k n w Hk Hc Hn) as (d' & -> & Hc' & _).
  rewrite (counter_value_ext _ d'); [exact Hc'|]. apply Hm.
Qed.

Lemma count_calls_increments_witness :
  counter_value (now sample_env empty_world)
    (redis (run sample_env
              (__call__ (count_calls RedisCache.store_function) [PInt 5])
              empty_world).2)
    (lit "RedisCache.store")
  = Some (0 + 1).
Proof.
  apply (count_calls_increments sample_env empty_world
           RedisCache.store_function [PInt 5] (lit "RedisCache.store") 0).
  - reflexivity.
  - reflexivity.
  - reflexivity.
  - intros w0. apply store_function_keeps_key. vm_compute. lia.
Defined.

(** In particular for [store]: whatever is stored, the counter under
    ["RedisCache.store"] goes from [n] to [n + 1]. *)
Lemma count_calls_store (E : env) (w : world) (data : pyval) (n : Z) :
  counter_value (now E w) (redis w) (lit "RedisCache.store") = Some n ->
  n < Dec.int64_max ->
  counter_value (now E w)
    (redis (run E (__call__ (count_calls RedisCache.store_function) [data])
              w).2)
    (lit "RedisCache.store")
  = Some (n + 1).
Proof.
  intros Hc Hn.
  destruct (run_count_calls E RedisCache.store_function [data]
              (lit "RedisCache.store") n w eq_refl Hc Hn) as (d' & -> & Hc' & _).
  rewrite (counter_value_ext _ d'); [exact Hc'|].
  apply (store_function_keeps_key E [data] (after w d')). vm_compute. lia.
Qed.

Section HistoryFacts.
Context (E : env).

Lemma lookup_live_persistent (t : Z) (d : gmap (list Z) Redis.entry)
    (k : list Z) v :
  d !! k = Some (Redis.Entry v None) ->
  Redis.lookup_live t d k = Some (Redis.Entry v None).
Proof. intros H. unfold Redis.lookup_live. rewrite H. reflexivity. Qed.

Lemma lookup_live_absent (t : Z) (d : gmap (list Z) Redis.entry) (k : list Z) :
  d !! k = None -> Redis.lookup_live t d k = None.
Proof. intros H. unfold Redis.lookup_live. rewrite H. reflexivity. Qed.



Lemma replay_count_ext (d d' : gmap (list Z) Redis.entry) (k : list Z) :
  d' !! k = d !! k -> replay_count d' k = replay_count d k.
Proof. intros H. unfold replay_count. rewrite H. reflexivity. Qed.

(** A run keeps the keys outside [K] when the program writes within [K]. *)
Lemma run_writes_within {A} (K : list Z -> Prop) (p : prog A) w (k : list Z) :
  sends_only (writes_within K) p -> ~ K k ->
  redis (run E p w).2 !! k = redis w !! k.
Proof.
  intros H Hk. revert w.
  induction H as [a|e|c f Hc _ IH|f _ IH|url f _ IH|line f _ IH];
    intros w; cbn [run]; try reflexivity.
  - assert ((Redis.exec (clock E (tick w)) c (redis w)).2 !! k = redis w !! k)
      as Hd.
    { destruct c; cbn [writes_within] in Hc; cbn [Redis.exec];
        try contradiction;
        repeat match goal with
               | |- context [match ?x with _ => _ end] => destruct x
               end;
        cbn [snd]; try reflexivity;
        try (apply lookup_insert_ne; congruence);
        try (apply lookup_delete_ne; congruence). }
    destruct (Redis.exec _ c (redis w)) as [r d]. cbn [snd] in Hd.
    rewrite IH. exact Hd.
  - rewrite IH. reflexivity.
  - rewrite IH. reflexivity.
  - rewrite IH. reflexivity.
Qed.



Lemma lrange_all (l : list (list Z)) : Redis.lrange l 0 (-1) = l.
Proof.
  unfold Redis.lrange. cbn [Z.ltb Z.compare].
  destruct l as [|x l]; [reflexivity|].
  set (len := Z.of_nat (length (x :: l))).
  assert (0 < len) by (unfold len; cbn [length]; lia).
  rewrite Z.min_r by lia.
  rewrite (proj2 (Z.ltb_ge _ _)), (proj2 (Z.leb_gt _ _)) by lia.
  cbn [orb Z.to_nat drop].
  apply take_ge. unfold len in *. lia.
Qed.

Lemma run_client_lrange_all key k l w :
  Utf8.encode key = Some k -> stored_list (redis w) k = Some l ->
  run E (Client.lrange key 0 (-1)) w = (Ok l, after w (redis w)).
Proof.
  intros Hk Hl. unfold Client.lrange.
  rewrite run_bind, (run_encode_text E _ _ _ Hk).
  cbn [run Redis.exec]. unfold stored_list in Hl.
  destruct (redis w !! k) as [[[b|l'] [t|]]|] eqn:Hd; try discriminate.
  - injection Hl as ->. rewrite (lookup_live_persistent _ _ _ _ Hd).
    rewrite lrange_all. reflexivity.
  - injection Hl as <-. rewrite (lookup_live_absent _ _ _ Hd). reflexivity.
Qed.

(** The loop of [replay] prints one line per pair, in order. *)
Lemma run_replay_loop name ins outs tins touts w :
  decode_all ins = Some tins -> decode_all outs = Some touts ->
  run E (for_each (zip ins outs) (fun io =>
           inp ← py_decode (PBytes io.1) Utf8.Strict;
           outp ← py_decode (PBytes io.2) Utf8.Strict;
           print (RedisCache.call_line name inp outp))) w
  = (Ok tt,
     World (redis w) (tick w)
           (stdout w ++ zip_with (RedisCache.call_line name) tins touts)).
Proof.
  unfold decode_all.
  revert outs tins touts w.
  induction ins as [|i ins IH]; intros outs tins touts w Hi Ho.
  - injection Hi as <-. cbn. rewrite app_nil_r. destruct w; reflexivity.
  - cbn [mapM] in Hi.
    destruct (Utf8.decode Utf8.Strict i) as [ti|] eqn:Hti; [|discriminate].
    destruct (mapM (Utf8.decode Utf8.Strict) ins) as [tins'|] eqn:Htins;
      [|discriminate].
    injection Hi as <-.
    destruct outs as [|o outs].
    + injection Ho as <-. cbn. rewrite app_nil_r. destruct w; reflexivity.
    + cbn [mapM] in Ho.
      destruct (Utf8.decode Utf8.Strict o) as [to|] eqn:Hto; [|discriminate].
      destruct (mapM (Utf8.decode Utf8.Strict) outs) as [touts'|] eqn:Htouts;
        [|discriminate].
      injection Ho as <-.
      cbn [zip zip_with for_each]. rewrite !run_bind.
      cbn [py_decode fst snd]. rewrite Hti. cbn [run]. rewrite run_bind.
      rewrite Hto. cbn [run print].
      rewrite (IH outs tins' touts' _ eq_refl Htouts).
      cbn [redis tick stdout]. rewrite <- app_assoc. reflexivity.
Qed.

(** What [replay] prints when the counter and the two lists are readable. *)
Lemma run_replay func kn n ins outs tins touts w :
  Utf8.encode (__qualname__ func) = Some kn ->
  replay_count (redis w) kn = Some n ->
  stored_list (redis w) (kn ++ lit ":inputs") = Some ins ->
  stored_list (redis w) (kn ++ lit ":outputs") = Some outs ->
  decode_all ins = Some tins -> decode_all outs = Some touts ->
  exists w',
    run E (RedisCache.replay func) w = (Ok tt, w') /\
    redis w' = redis w /\
    stdout w' =
      stdout w ++ RedisCache.count_line (__qualname__ func) n
                  :: zip_with (RedisCache.call_line (__qualname__ func))
                       tins touts.
Proof.
  intros Hk Hn Hi Ho Hti Hto.
  assert (Utf8.encode (__qualname__ func ++ lit ":inputs")
          = Some (kn ++ lit ":inputs")) as Hki
      by (rewrite utf8_encode_app, Hk; reflexivity).
  assert (Utf8.encode (__qualname__ func ++ lit ":outputs")
          = Some (kn ++ lit ":outputs")) as Hko
      by (rewrite utf8_encode_app, Hk; reflexivity).
  unfold RedisCache.replay, RedisCache._get_function_key.
  rewrite run_bind, (run_client_get E _ _ _ Hk).
  assert (exists w1,
             run E (if truthy match Redis.lookup_live (now E w) (redis w) kn with
                              | None => PNone
                              | Some (Redis.Entry (Redis.VString b) _) => PBytes b
                              | Some (Redis.Entry (Redis.VList _) _) => PNone
                              end
                    then v ← Client.get (__qualname__ func);
                         s ← py_decode v Utf8.Strict; py_int s
                    else Ret 0) (after w (redis w)) = (Ok n, w1) /\
             redis w1 = redis w /\ stdout w1 = stdout w /\
             match Redis.lookup_live (now E w) (redis w) kn with
             | Some (Redis.Entry (Redis.VList _) _) => False
             | _ => True
             end) as (w1 & Hrun & Hr1 & Hs1 & Hnl).
  { unfold replay_count in Hn.
    destruct (redis w !! kn) as [[[b|l] [t|]]|] eqn:Hd; try discriminate.
    - rewrite (lookup_live_persistent _ _ _ _ Hd). cbn [truthy].
      case_bool_decide as Hb; cbn [negb].
      + injection Hn as <-. eexists. cbn [run]. repeat split.
      + rewrite run_bind, (run_client_get E _ _ _ Hk).
        cbn [redis after]. rewrite (lookup_live_persistent _ _ _ _ Hd).
        rewrite run_bind. cbn [py_decode].
        destruct (Utf8.decode Utf8.Strict b) as [s|]; [|discriminate].
        cbn [mbind option_bind] in Hn. cbn [run]. unfold py_int. rewrite Hn.
        eexists. cbn [run]. repeat split.
    - injection Hn as <-. rewrite (lookup_live_absent _ _ _ Hd).
      eexists. cbn [truthy run]. repeat split. }
  destruct (Redis.lookup_live (now E w) (redis w) kn) as [[[b|l] t]|];
    try contradiction.
  all: rewrite run_bind, Hrun, run_bind; cbn [print run].
  all: rewrite run_bind.
  all: erewrite run_client_lrange_all;
    [|exact Hki|cbn [redis]; rewrite Hr1; exact Hi].
  all: rewrite run_bind.
  all: erewrite run_client_lrange_all;
    [|exact Hko|cbn [redis after]; rewrite Hr1; exact Ho].
  all: rewrite (run_replay_loop _ _ _ _ _ _ Hti Hto).
  all: eexists; split; [reflexivity|]; cbn [redis stdout after].
  all: rewrite Hr1, Hs1, <- app_assoc; split; reflexivity.
Qed.

(** The count [replay] prints is the counter the increments keep. *)
Lemma replay_count_counter (t : Z) (d : gmap (list Z) Redis.entry)
    (k : list Z) n :
  match d !! k with
  | None => True
  | Some e => Redis.expire_at e = None
  end ->
  counter_value t d k = Some n -> replay_count d k = Some n.
Proof.
  unfold counter_value, replay_count, Redis.lookup_live, Redis.expired.
  destruct (d !! k) as [[[b|l] x]|]; cbn [Redis.expire_at];
    try (intros ->); try discriminate; [|intros _; exact id].
  intros Hb. pose proof (string2ll_in_int64 _ _ Hb) as Hn.
  apply string2ll_canonical in Hb as <-.
  rewrite bool_decide_eq_false_2 by apply int_repr_nonempty.
  rewrite (utf8_decode_ascii _ _ (int_repr_ascii n)). cbn [mbind option_bind].
  apply py_int_py_repr, py_repr_int64, Hn.
Qed.

End HistoryFacts.

Lemma decode_all_snoc l t b s :
  decode_all l = Some t -> Utf8.decode Utf8.Strict b = Some s ->
  decode_all (l ++ [b]) = Some (t ++ [s]).
Proof.
  unfold decode_all. revert t. induction l as [|x l IH]; intros t Hl Hb.
  - injection Hl as <-. cbn. rewrite Hb. reflexivity.
  - cbn [mapM app] in *.
    destruct (Utf8.decode Utf8.Strict x) as [tx|]; [|discriminate].
    destruct (mapM (Utf8.decode Utf8.Strict) l) as [tl|]; [|discriminate].
    injection Hl as <-. cbn. rewrite (IH tl eq_refl Hb). reflexivity.
Qed.

Lemma decode_all_length l t : decode_all l = Some t -> length t = length l.
Proof.
  unfold decode_all. revert t. induction l as [|x l IH]; intros t Hl.
  - injection Hl as <-. reflexivity.
  - cbn [mapM] in Hl.
    destruct (Utf8.decode Utf8.Strict x) as [tx|]; [|discriminate].
    destruct (mapM (Utf8.decode Utf8.Strict) l) as [tl|]; [|discriminate].
    injection Hl as <-. cbn [length]. rewrite (IH tl eq_refl). reflexivity.
Qed.













(** What [replay] prints after two calls of [store] under both decorators. *)
Example replay_after_two_calls :
  let f := call_history sample_str_args decorated_store in
  stdout (run sample_env
            (_ ← call_each f [[PInt 5]; [PInt 7]]; RedisCache.replay f)
            empty_world).2
  = [lit "RedisCache.store was called 2 times:";
     lit "RedisCache.store(*(5,)) -> 00000000-0000-4000-8000-000000000002";
     lit "RedisCache.store(*(7,)) -> 00000000-0000-4000-8000-000000000007"].
Proof. vm_compute. reflexivity. Qed.

(** * web.py *)

Section WebFacts.
Context (E : env).

Lemma web_keys_distinct (u : list Z) : lit "cached:" ++ u <> lit "count:" ++ u.
Proof. intros H. discriminate H. Qed.

Lemma encode_cached_key url u :
  Utf8.encode url = Some u ->
  Utf8.encode (lit "cached:" ++ url) = Some (lit "cached:" ++ u).
Proof. intros Hu. rewrite utf8_encode_app, Hu. reflexivity. Qed.

Lemma encode_count_key url u :
  Utf8.encode url = Some u ->
  Utf8.encode (lit "count:" ++ url) = Some (lit "count:" ++ u).
Proof. intros Hu. rewrite utf8_encode_app, Hu. reflexivity. Qed.

(** A call that finds a cached body that is not empty: the body is decoded
    and returned; nothing is fetched and the database stays as it was. *)
Lemma get_page_cached url u b t s w :
  Utf8.encode url = Some u ->
  Redis.lookup_live (now E w) (redis w) (lit "cached:" ++ u)
  = Some (Redis.Entry (Redis.VString b) t) ->
  b <> [] ->
  Utf8.decode Utf8.Strict b = Some s ->
  run E (Web.get_page url) w = (Ok (PStr s), after w (redis w)).
Proof.
  intros Hu Hl Hb Hs.
  unfold Web.get_page, Web.count_url_access, Web.wrapper.
  rewrite run_bind, (run_client_get E _ _ _ (encode_cached_key _ _ Hu)).
  rewrite Hl. cbn [truthy]. rewrite bool_decide_eq_false_2 by exact Hb.
  cbn [negb]. rewrite run_bind. cbn [py_decode]. rewrite Hs. reflexivity.
Qed.

(** A call that gets nothing it takes for a cached body, no key or the
    empty bytes: the page is fetched, the counter of the URL goes up by
    one, the body is stored under the cached key, and the key is set to
    expire ten seconds after the [expire]. *)
Lemma get_page_fetches url u html b n w :
  Utf8.encode url = Some u ->
  match Redis.lookup_live (now E w) (redis w) (lit "cached:" ++ u) with
  | None => True
  | Some (Redis.Entry (Redis.VString c) _) => c = []
  | Some (Redis.Entry (Redis.VList _) _) => False
  end ->
  http E (S (tick w)) url = Ok html ->
  Utf8.encode html = Some b ->
  counter_value (clock E (S (S (tick w)))) (redis w) (lit "count:" ++ u)
  = Some n ->
  n < Dec.int64_max ->
  exists d',
    run E (Web.get_page url) w =
    (Ok (PStr html),
     World (<[lit "cached:" ++ u
              := Redis.Entry (Redis.VString b)
                   (Some (clock E (S (S (S (S (tick w))))) + 1000 * 10))]>
              (<[lit "cached:" ++ u := Redis.Entry (Redis.VString b) None]> d'))
           (S (S (S (S (S (tick w)))))) (stdout w)) /\
    counter_value (clock E (S (S (tick w)))) d' (lit "count:" ++ u)
    = Some (n + 1) /\
    (forall k', lit "count:" ++ u <> k' -> d' !! k' = redis w !! k') /\
    trace E (Web.get_page url) w =
    [Redis.GET (lit "cached:" ++ u); Redis.INCR (lit "count:" ++ u);
     Redis.SET (lit "cached:" ++ u) b; Redis.EXPIRE (lit "cached:" ++ u) 10].
Proof.
  intros Hu Hl Hh Hb Hc Hn.
  pose proof (encode_cached_key _ _ Hu) as Hkc.
  pose proof (encode_count_key _ _ Hu) as Hkn.
  destruct (run_client_incr E (lit "count:" ++ url) _ n
              (World (redis w) (S (S (tick w))) (stdout w)) Hkn Hc Hn)
    as (d' & Hr & Hc' & Ho).
  assert (Client.encode_arg (PStr html) = Ret b) as Hv.
  { cbn [Client.encode_arg]. unfold Client.encode_text. rewrite Hb. reflexivity. }
  assert (exists v,
             run E (Client.get (lit "cached:" ++ url)) w
             = (Ok v, after w (redis w)) /\ truthy v = false)
    as (v & Hg & Hf).
  { rewrite (run_client_get E _ _ _ Hkc).
    destruct (Redis.lookup_live _ _ _) as [[[c|l] t]|]; [|contradiction|].
    - subst c. exists (PBytes []). split; reflexivity.
    - exists PNone. split; reflexivity. }
  exists d'. unfold Web.get_page, Web.count_url_access, Web.wrapper.
  rewrite run_bind, trace_bind, (trace_client_get E _ _ _ Hkc), Hg, Hf.
  rewrite run_bind, trace_bind. unfold Web.get_page_body.
  cbn [run trace tick redis stdout after]. rewrite Hh. cbn [run trace app].
  rewrite run_bind, trace_bind, (trace_client_incr E _ _ _ Hkn), Hr.
  rewrite run_bind, trace_bind, (trace_client_set E _ _ _ _ _ Hkc Hv).
  rewrite (run_client_set E _ _ _ _ _ Hkc Hv).
  rewrite run_bind, trace_bind, (trace_client_expire E _ _ _ _ Hkc).
  erewrite run_client_expire; [|exact Hkc| |lia].
  2:{ cbn [redis after]. apply lookup_live_insert_eq. reflexivity. }
  split; [reflexivity|]. split; [exact Hc'|]. split; [exact Ho|reflexivity].
Qed.

Lemma utf8_encode_nonempty s b : Utf8.encode s = Some b -> s <> [] -> b <> [].
Proof.
  intros Hs Hne ->. apply (utf8_decode_encode Utf8.Strict) in Hs.
  cbn in Hs. congruence.
Qed.

(** A second call, made before the cached body expires, returns the body
    of the first and leaves the database, with the counter, as it was:
    this is for a body that is not empty. *)
Lemma get_page_again url u html b n w :
  Utf8.encode url = Some u ->
  Redis.lookup_live (now E w) (redis w) (lit "cached:" ++ u) = None ->
  http E (S (tick w)) url = Ok html ->
  Utf8.encode html = Some b ->
  counter_value (clock E (S (S (tick w)))) (redis w) (lit "count:" ++ u)
  = Some n ->
  n < Dec.int64_max ->
  html <> [] ->
  clock E (S (S (S (S (S (tick w))))))
  <= clock E (S (S (S (S (tick w))))) + 1000 * 10 ->
  run E (Web.get_page url) (run E (Web.get_page url) w).2
  = (Ok (PStr html),
     after (run E (Web.get_page url) w).2
           (redis (run E (Web.get_page url) w).2)).
Proof.
  intros Hu Hl Hh Hb Hc Hn Hne Ht.
  assert (match Redis.lookup_live (now E w) (redis w) (lit "cached:" ++ u) with
          | None => True
          | Some (Redis.Entry (Redis.VString c) _) => c = []
          | Some (Redis.Entry (Redis.VList _) _) => False
          end) as Hl' by (rewrite Hl; exact I).
  destruct (get_page_fetches url u html b n w Hu Hl' Hh Hb Hc Hn)
    as (d' & -> & _ & _).
  cbn [snd].
  eapply (get_page_cached url u b _ html); [exact Hu| |
    exact (utf8_encode_nonempty _ _ Hb Hne)|
    exact (utf8_decode_encode Utf8.Strict _ _ Hb)].
  unfold now. cbn [redis tick].
  apply lookup_live_insert_eq. unfold Redis.expired. cbn [Redis.expire_at].
  apply Z.ltb_ge. exact Ht.
Qed.

(** The cached body of an empty page is not taken for one: a call that
    finds the empty bytes under the cached key, alive, fetches the page
    again and counts the fetch. *)
Lemma get_page_empty_cached_refetches url u t html b n w :
  Utf8.encode url = Some u ->
  Redis.lookup_live (now E w) (redis w) (lit "cached:" ++ u)
  = Some (Redis.Entry (Redis.VString []) t) ->
  http E (S (tick w)) url = Ok html ->
  Utf8.encode html = Some b ->
  counter_value (clock E (S (S (tick w)))) (redis w) (lit "count:" ++ u)
  = Some n ->
  n < Dec.int64_max ->
  counter_value (clock E (S (S (tick w))))
    (redis (run E (Web.get_page url) w).2) (lit "count:" ++ u)
  = Some (n + 1) /\
  trace E (Web.get_page url) w =
  [Redis.GET (lit "cached:" ++ u); Redis.INCR (lit "count:" ++ u);
   Redis.SET (lit "cached:" ++ u) b; Redis.EXPIRE (lit "cached:" ++ u) 10].
Proof.
  intros Hu Hl Hh Hb Hc Hn.
  assert (match Redis.lookup_live (now E w) (redis w) (lit "cached:" ++ u) with
          | None => True
          | Some (Redis.Entry (Redis.VString c) _) => c = []
          | Some (Redis.Entry (Redis.VList _) _) => False
          end) as Hl' by (rewrite Hl; reflexivity).
  destruct (get_page_fetches url u html b n w Hu Hl' Hh Hb Hc Hn)
    as (d' & -> & Hc' & _ & Ht).
  split; [|exact Ht]. cbn [snd redis].
  rewrite (counter_value_ext _ d'); [exact Hc'|].
  rewrite !lookup_insert_ne by apply web_keys_distinct. reflexivity.
Qed.

End WebFacts.

(** C6. A call to [get_page] that finds no cached body for the URL fetches
    the page, adds one to the URL's counter, stores the body under the key
    ["cached:"] followed by the URL and sets that key to expire 10 seconds
    after the [expire] command; it sends exactly these commands. *)
Theorem get_page_miss_caches (E : env) (w : world) (url html : pystr)
    (u b : list Z) (n : Z) :
  Utf8.encode url = Some u ->
  Redis.lookup_live (now E w) (redis w) (lit "cached:" ++ u) = None ->
  http E (S (tick w)) url = Ok html ->
  Utf8.encode html = Some b ->
  counter_value (clock E (S (S (tick w)))) (redis w) (lit "count:" ++ u)
  = Some n ->
  n < Dec.int64_max ->
  (run E (Web.get_page url) w).1 = Ok (PStr html) /\
  redis (run E (Web.get_page url) w).2 !! (lit "cached:" ++ u)
  = Some (Redis.Entry (Redis.VString b)
            (Some (clock E (S (S (S (S (tick w))))) + 1000 * 10))) /\
  counter_value (clock E (S (S (tick w))))
    (redis (run E (Web.get_page url) w).2) (lit "count:" ++ u)
  = Some (n + 1) /\
  trace E (Web.get_page url) w =
  [Redis.GET (lit "cached:" ++ u); Redis.INCR (lit "count:" ++ u);
   Redis.SET (lit "cached:" ++ u) b; Redis.EXPIRE (lit "cached:" ++ u) 10].
Proof.
  intros Hu Hl Hh Hb Hc Hn.
  assert (match Redis.lookup_live (now E w) (redis w) (lit "cached:" ++ u) with
          | None => True
          | Some (Redis.Entry (Redis.VString c) _) => c = []
          | Some (Redis.Entry (Redis.VList _) _) => False
          end) as Hl' by (rewrite Hl; exact I).
  destruct (get_page_fetches E url u html b n w Hu Hl' Hh Hb Hc Hn)
    as (d' & -> & Hc' & Ho & Ht).
  cbn [fst snd redis]. split; [reflexivity|].
  split; [apply lookup_insert_eq|]. split; [|exact Ht].
  rewrite (counter_value_ext _ d'); [exact Hc'|].
  rewrite !lookup_insert_ne by apply web_keys_distinct. reflexivity.
Qed.

Lemma get_page_miss_caches_witness :
  (run sample_env (Web.get_page (lit "http://a.b/")) empty_world).1
  = Ok (PStr (lit "<html>")) /\
  redis (run sample_env (Web.get_page (lit "http://a.b/")) empty_world).2
    !! (lit "cached:" ++ lit "http://a.b/")
  = Some (Redis.Entry (Redis.VString (lit "<html>"))
            (Some (clock sample_env 4 + 1000 * 10))) /\
  counter_value (clock sample_env 2)
    (redis (run sample_env (Web.get_page (lit "http://a.b/")) empty_world).2)
    (lit "count:" ++ lit "http://a.b/")
  = Some (0 + 1) /\
  trace sample_env (Web.get_page (lit "http://a.b/")) empty_world =
  [Redis.GET (lit "cached:" ++ lit "http://a.b/");
   Redis.INCR (lit "count:" ++ lit "http://a.b/");
   Redis.SET (lit "cached:" ++ lit "http://a.b/") (lit "<html>");
   Redis.EXPIRE (lit "cached:" ++ lit "http://a.b/") 10].
Proof.
  apply (get_page_miss_caches sample_env empty_world (lit "http://a.b/")
           (lit "<html>") (lit "http://a.b/") (lit "<html>") 0);
    reflexivity.
Defined.

(** C2 at the failing input: a page whose body is empty.  The first call
    caches the empty body, with its expiry ten seconds ahead; the second
    call, one second later, finds the cached body in the store, yet fetches
    the page again and raises the counter from 1 to 2. *)
Lemma get_page_empty_body_refetched :
  let url := lit "http://a.b/" in
  let w1 := (run empty_page_env (Web.get_page url) empty_world).2 in
  let w2 := (run empty_page_env (Web.get_page url) w1).2 in
  Redis.lookup_live (now empty_page_env w1) (redis w1) (lit "cached:" ++ url)
  = Some (Redis.Entry (Redis.VString []) (Some 14000)) /\
  now empty_page_env w1 = 5000 /\
  counter_value (now empty_page_env w1) (redis w1) (lit "count:" ++ url)
  = Some 1 /\
  trace empty_page_env (Web.get_page url) w1 =
  [Redis.GET (lit "cached:" ++ url); Redis.INCR (lit "count:" ++ url);
   Redis.SET (lit "cached:" ++ url) []; Redis.EXPIRE (lit "cached:" ++ url) 10]
  /\
  counter_value (now empty_page_env w2) (redis w2) (lit "count:" ++ url)
  = Some 2.
Proof. vm_compute. repeat split. Qed.

(** * Further properties of the two modules *)

Section MoreRunFacts.
Context (E : env).

(** A program that can only send reads leaves the database as it was,
    whether it returns or raises. *)
Lemma run_reads_keep_db {A} (p : prog A) w :
  sends_only reads p -> redis (run E p w).2 = redis w.
Proof.
  intros H. revert w. induction H as [a|e|c k Hc _ IH|k _ IH|url k _ IH|line k _ IH];
    intros w; cbn [run]; try reflexivity.
  - pose proof (read_only_exec (clock E (tick w)) c (redis w) Hc) as Hd.
    destruct (Redis.exec _ c (redis w)) as [r d]. cbn [snd] in Hd. subst d.
    rewrite IH. reflexivity.
  - rewrite IH. reflexivity.
  - rewrite IH. reflexivity.
  - rewrite IH. reflexivity.
Qed.

End MoreRunFacts.

Section MoreCodecFacts.
Import Utf8.

(** The ignoring decoder always gives a text. *)
Lemma decode_ignore_bounded n :
  forall bs, (length bs <= n)%nat -> is_Some (decode Ignore bs).
Proof.
  induction n as [|n IH]; intros bs Hn.
  - destruct bs; [eexists; reflexivity|cbn in Hn; lia].
  - destruct bs as [|b1 r1]; [eexists; reflexivity|].
    cbn [length] in Hn.
    assert (is_Some (decode Ignore r1)) as H1 by (apply IH; lia).
    assert (forall b2 r2, r1 = b2 :: r2 -> is_Some (decode Ignore r2)) as H2.
    { intros b2 r2 ->. apply IH. cbn [length] in Hn. lia. }
    assert (forall b2 b3 r3, r1 = b2 :: b3 :: r3 -> is_Some (decode Ignore r3))
      as H3.
    { intros b2 b3 r3 ->. apply IH. cbn [length] in Hn. lia. }
    assert (forall b2 b3 b4 r4, r1 = b2 :: b3 :: b4 :: r4 ->
                                is_Some (decode Ignore r4)) as H4.
    { intros b2 b3 b4 r4 ->. apply IH. cbn [length] in Hn. lia. }
    cbn [decode].
    repeat match goal with
           | |- is_Some (if ?c then _ else _) => destruct c
           | |- is_Some (match ?l with [] => _ | _ :: _ => _ end) =>
               destruct l
           | |- is_Some (_ <$> _) => apply fmap_is_Some
           | |- is_Some (Some _) => eexists; reflexivity
           end;
      eauto.
Qed.

Lemma decode_ignore_total bs : exists s, decode Ignore bs = Some s.
Proof. apply (decode_ignore_bounded (length bs)). lia. Qed.

End MoreCodecFacts.

Section MoreExerciseFacts.
Context (E : env).

(** What [get_int] does with what the client hands it. *)
Lemma run_get_int key k w :
  Utf8.encode key = Some k ->
  run E (RedisCache.get_int key) w =
  (match Redis.lookup_live (now E w) (redis w) k with
   | None => Raised AttributeError
   | Some (Redis.Entry (Redis.VString b) _) =>
       match Utf8.decode Utf8.Ignore b with
       | Some s =>
           match Dec.py_int s with
           | Some n => Ok (PInt n)
           | None => Raised ValueError
           end
       | None => Raised UnicodeDecodeError
       end
   | Some (Redis.Entry (Redis.VList _) _) => Raised ResponseError
   end, after w (redis w)).
Proof.
  intros Hk. unfold RedisCache.get_int, RedisCache.get.
  rewrite run_bind, (run_client_get E _ _ _ Hk).
  destruct (Redis.lookup_live _ _ k) as [[[b|l] t]|]; try reflexivity.
  rewrite run_bind. cbn [py_decode].
  destruct (Utf8.decode Utf8.Ignore b) as [s|]; [|reflexivity].
  cbn [run]. rewrite run_bind. unfold py_int.
  destruct (Dec.py_int s); reflexivity.
Qed.

(** [store] writes under the key it returns and nowhere else. *)
Lemma store_keeps_other data w (k : list Z) :
  k <> drawn_key E w ->
  redis (run E (RedisCache.store data) w).2 !! k = redis w !! k.
Proof.
  intros Hk. destruct (encode_arg_cases data) as [[v Hv]|[e He]].
  - rewrite (run_store E _ _ _ Hv). cbn [snd redis after].
    apply lookup_insert_ne. congruence.
  - unfold RedisCache.store. rewrite run_bind. cbn [run].
    fold (draw E w). fold (drawn_key E w). fold (after w (redis w)).
    rewrite run_bind.
    rewrite (run_client_set_fail E _ _ _ _ _ (encode_drawn_key E w) He).
    reflexivity.
Qed.

Lemma run_store_refused data e w :
  Client.encode_arg data = Throw e ->
  run E (RedisCache.store data) w = (Raised e, after w (redis w)).
Proof.
  intros He. unfold RedisCache.store. rewrite run_bind. cbn [run].
  fold (draw E w). fold (drawn_key E w). fold (after w (redis w)).
  rewrite run_bind.
  rewrite (run_client_set_fail E _ _ _ _ _ (encode_drawn_key E w) He).
  reflexivity.
Qed.

(** A call of [store] under its decorator: the increment of the counter,
    then the body. *)
Lemma run_decorated_store data n w :
  counter_value (now E w) (redis w) (lit "RedisCache.store") = Some n ->
  n < Dec.int64_max ->
  exists d',
    run E (__call__ decorated_store [data]) w
    = run E (RedisCache.store data) (after w d') /\
    counter_value (now E w) d' (lit "RedisCache.store") = Some (n + 1) /\
    (forall k', lit "RedisCache.store" <> k' -> d' !! k' = redis w !! k').
Proof.
  intros Hc Hn.
  exact (run_count_calls E RedisCache.store_function [data]
           (lit "RedisCache.store") n w eq_refl Hc Hn).
Qed.

Lemma drawn_key_not_counter w : drawn_key E w <> lit "RedisCache.store".
Proof.
  intros H. apply (f_equal length) in H. unfold drawn_key in H.
  rewrite uuid_str_length in H. vm_compute in H. lia.
Qed.

End MoreExerciseFacts.

Lemma uuid_str_chars u : Forall is_uuid_char (Uuid.uuid_str u).
Proof.
  assert (Forall is_uuid_char (Uuid.hex_fixed 32 u)) as Hh.
  { eapply Forall_impl; [apply hex_fixed_is_hex|]. intros c Hc. left. exact Hc. }
  assert (Forall is_uuid_char [45]) as Hd
      by (repeat constructor; right; reflexivity).
  unfold Uuid.uuid_str, Uuid.dashed.
  repeat (apply Forall_app; split); auto using Forall_take, Forall_drop.
Qed.

(** No key of the page cache is the text of a UUID: [h] and [o] are no
    hexadecimal digits. *)
Lemma uuid_str_not_web_key u (x : list Z) :
  Uuid.uuid_str u <> lit "cached:" ++ x /\ Uuid.uuid_str u <> lit "count:" ++ x.
Proof.
  pose proof (uuid_str_chars u) as Hc.
  split; intros Heq; rewrite Heq in Hc.
  - apply (Forall_lookup_1 _ _ 3%nat 104) in Hc; [|reflexivity].
    unfold is_uuid_char, Uuid.is_hex in Hc. lia.
  - apply (Forall_lookup_1 _ _ 1%nat 111) in Hc; [|reflexivity].
    unfold is_uuid_char, Uuid.is_hex in Hc. lia.
Qed.

(** X1. The getters and [replay] never change the database: after [get]
    without a decode function, [get_str], [get_int] or [replay], whether
    the call returned or raised, every key holds what it held before. *)
Theorem readers_keep_database (E : env) (w : world) (key : pystr)
    (func : pyfunc) :
  redis (run E (RedisCache.get key None) w).2 = redis w /\
  redis (run E (RedisCache.get_str key) w).2 = redis w /\
  redis (run E (RedisCache.get_int key) w).2 = redis w /\
  redis (run E (RedisCache.replay func) w).2 = redis w.
Proof.
  repeat split; apply run_reads_keep_db.
  - apply sends_get_default.
  - apply sends_get_str.
  - apply sends_get_int.
  - apply sends_replay.
Qed.

(** X2. [get_int] on a key the store does not hold raises
    [AttributeError]: the value is [None], which has no [decode], and
    nothing catches the exception. *)
Theorem get_int_missing_key_raises (E : env) (w : world) (key : pystr)
    (k : list Z) :
  Utf8.encode key = Some k ->
  Redis.lookup_live (now E w) (redis w) k = None ->
  run E (RedisCache.get_int key) w = (Raised AttributeError, after w (redis w)).
Proof. intros Hk Hl. rewrite (run_get_int E _ _ _ Hk), Hl. reflexivity. Qed.

Lemma get_int_missing_key_raises_witness :
  run sample_env (RedisCache.get_int (lit "nokey")) empty_world
  = (Raised AttributeError, after empty_world (redis empty_world)).
Proof.
  apply (get_int_missing_key_raises sample_env empty_world (lit "nokey")
           (lit "nokey")); reflexivity.
Defined.

(** X3. [get_int] on a key that holds a string never fails in decoding:
    bytes that are not UTF-8 are dropped, and the text that is left goes to
    [int].  The result is the integer [int] reads, or [ValueError] when it
    reads none. *)
Theorem get_int_reads_stored_text (E : env) (w : world) (key : pystr)
    (k b : list Z) (t : option Z) :
  Utf8.encode key = Some k ->
  Redis.lookup_live (now E w) (redis w) k
  = Some (Redis.Entry (Redis.VString b) t) ->
  exists s,
    Utf8.decode Utf8.Ignore b = Some s /\
    run E (RedisCache.get_int key) w =
    (match Dec.py_int s with
     | Some n => Ok (PInt n)
     | None => Raised ValueError
     end, after w (redis w)).
Proof.
  intros Hk Hl. destruct (decode_ignore_total b) as [s Hs]. exists s.
  split; [exact Hs|]. rewrite (run_get_int E _ _ _ Hk), Hl, Hs. reflexivity.
Qed.

Lemma get_int_reads_stored_text_witness :
  exists s,
    Utf8.decode Utf8.Ignore (lit " 12 ") = Some s /\
    run sample_env (RedisCache.get_int (lit "k")) padded_number_world =
    (match Dec.py_int s with
     | Some n => Ok (PInt n)
     | None => Raised ValueError
     end, after padded_number_world (redis padded_number_world)).
Proof.
  apply (get_int_reads_stored_text sample_env padded_number_world (lit "k")
           (lit "k") (lit " 12 ") None); reflexivity.
Defined.

(** What [int] makes of three stored texts: an Arabic-Indic digit three
    counts as a digit, a file separator before the digits is no space, and
    4301 zeros are more digits than the limit allows. *)
Example get_int_reads_like_int :
  let holding b :=
    World {[ lit "k" := Redis.Entry (Redis.VString b) None ]} 0 [] in
  (run sample_env (RedisCache.get_int (lit "k")) (holding [217; 163])).1
  = Ok (PInt 3) /\
  (run sample_env (RedisCache.get_int (lit "k")) (holding [28; 49; 50])).1
  = Raised ValueError /\
  (run sample_env (RedisCache.get_int (lit "k"))
       (holding (repeat 48 4300))).1
  = Ok (PInt 0) /\
  (run sample_env (RedisCache.get_int (lit "k"))
       (holding (repeat 48 4301))).1
  = Raised ValueError.
Proof. vm_compute. repeat split. Qed.

(** X4. An integer within the digit limit that was stored comes back
    through [get_int]: for every integer [z] that [repr] converts (at most
    4300 digits), [store], called under its decorator while the counter of
    calls is readable, returns a key on which [get_int] returns [z]. *)
Theorem get_int_returns_stored_int (E : env) (w : world) (z n : Z)
    (s : pystr) :
  Dec.py_repr z = Some s ->
  counter_value (now E w) (redis w) (lit "RedisCache.store") = Some n ->
  n < Dec.int64_max ->
  (run E (__call__ decorated_store [PInt z]) w).1
  = Ok (PStr (drawn_key E (after w (redis w)))) /\
  (run E (RedisCache.get_int (drawn_key E (after w (redis w))))
       (run E (__call__ decorated_store [PInt z]) w).2).1 = Ok (PInt z).
Proof.
  intros Hs Hc Hn.
  destruct (run_decorated_store E (PInt z) n w Hc Hn) as (d' & -> & _ & _).
  rewrite (run_store E _ _ _ (encode_arg_int z s Hs)). cbn [fst snd].
  split; [reflexivity|].
  change (drawn_key E (after w (redis w))) with (drawn_key E (after w d')).
  rewrite (run_get_int E _ _ _ (encode_drawn_key E (after w d'))).
  cbn [redis after]. rewrite lookup_live_insert_eq by reflexivity.
  rewrite (utf8_decode_ascii _ _ (int_repr_ascii z)).
  rewrite (py_repr_int_repr _ _ Hs) in Hs.
  rewrite (py_int_py_repr _ _ Hs). reflexivity.
Qed.

Lemma get_int_returns_stored_int_witness :
  (run sample_env (__call__ decorated_store [PInt (-1205)]) empty_world).1
  = Ok (PStr (drawn_key sample_env
                (after empty_world (redis empty_world)))) /\
  (run sample_env
       (RedisCache.get_int
          (drawn_key sample_env (after empty_world (redis empty_world))))
       (run sample_env (__call__ decorated_store [PInt (-1205)])
            empty_world).2).1
  = Ok (PInt (-1205)).
Proof.
  apply (get_int_returns_stored_int sample_env empty_world (-1205) 0
           (lit "-1205")).
  - reflexivity.
  - reflexivity.
  - reflexivity.
Defined.

(** X5. [store], called under its decorator with a value the client
    encodes and a readable counter, writes two entries and nothing else:
    the bytes of the value are under the returned key, never to expire, the
    counter under ["RedisCache.store"] has gone up by one, and every other
    key holds what it held before. *)
Theorem store_writes_entry_and_counter (E : env) (w : world) (data : pyval)
    (v : list Z) (n : Z) :
  Client.encode_arg data = Ret v ->
  counter_value (now E w) (redis w) (lit "RedisCache.store") = Some n ->
  n < Dec.int64_max ->
  (run E (__call__ decorated_store [data]) w).1
  = Ok (PStr (drawn_key E (after w (redis w)))) /\
  (forall t : Z,
     Redis.lookup_live t (redis (run E (__call__ decorated_store [data]) w).2)
       (drawn_key E (after w (redis w)))
     = Some (Redis.Entry (Redis.VString v) None)) /\
  counter_value (now E w)
    (redis (run E (__call__ decorated_store [data]) w).2)
    (lit "RedisCache.store")
  = Some (n + 1) /\
  (forall k : list Z,
     k <> drawn_key E (after w (redis w)) ->
     k <> lit "RedisCache.store" ->
     redis (run E (__call__ decorated_store [data]) w).2 !! k = redis w !! k).
Proof.
  intros Hv Hc Hn.
  destruct (run_decorated_store E data n w Hc Hn) as (d' & -> & Hc' & Ho).
  rewrite (run_store E _ _ _ Hv). cbn [fst snd redis after].
  change (drawn_key E (after w (redis w))) with (drawn_key E (after w d')).
  split; [reflexivity|]. split; [|split].
  - intros t. apply lookup_live_insert_eq. reflexivity.
  - rewrite (counter_value_ext _ d'); [exact Hc'|].
    apply lookup_insert_ne, drawn_key_not_counter.
  - intros k Hk Hkn. rewrite lookup_insert_ne by congruence.
    apply Ho. congruence.
Qed.

Lemma store_writes_entry_and_counter_witness :
  (run sample_env (__call__ decorated_store [PBytes [255; 0]]) empty_world).1
  = Ok (PStr (drawn_key sample_env
                (after empty_world (redis empty_world)))) /\
  (forall t : Z,
     Redis.lookup_live t
       (redis (run sample_env (__call__ decorated_store [PBytes [255; 0]])
                 empty_world).2)
       (drawn_key sample_env (after empty_world (redis empty_world)))
     = Some (Redis.Entry (Redis.VString [255; 0]) None)) /\
  counter_value (now sample_env empty_world)
    (redis (run sample_env (__call__ decorated_store [PBytes [255; 0]])
              empty_world).2)
    (lit "RedisCache.store")
  = Some (0 + 1) /\
  (forall k : list Z,
     k <> drawn_key sample_env (after empty_world (redis empty_world)) ->
     k <> lit "RedisCache.store" ->
     redis (run sample_env (__call__ decorated_store [PBytes [255; 0]])
              empty_world).2 !! k
     = redis empty_world !! k).
Proof.
  apply (store_writes_entry_and_counter sample_env empty_world
           (PBytes [255; 0]) [255; 0] 0).
  - reflexivity.
  - reflexivity.
  - reflexivity.
Defined.

(** X6. When the client refuses the value ([None], a [str] that UTF-8
    cannot encode, an [int] beyond the digit limit), [store] raises the
    client's exception and no key is written for the value; under its
    decorator the call has been counted all the same: the counter under
    ["RedisCache.store"] has gone up by one, and every other key holds what
    it held before. *)
Theorem store_refused_value_is_counted (E : env) (w : world) (data : pyval)
    (e : exn) (n : Z) :
  Client.encode_arg data = Throw e ->
  counter_value (now E w) (redis w) (lit "RedisCache.store") = Some n ->
  n < Dec.int64_max ->
  (run E (RedisCache.store data) w).1 = Raised e /\
  redis (run E (RedisCache.store data) w).2 = redis w /\
  (run E (__call__ decorated_store [data]) w).1 = Raised e /\
  counter_value (now E w)
    (redis (run E (__call__ decorated_store [data]) w).2)
    (lit "RedisCache.store")
  = Some (n + 1) /\
  (forall k : list Z,
     k <> lit "RedisCache.store" ->
     redis (run E (__call__ decorated_store [data]) w).2 !! k = redis w !! k).
Proof.
  intros He Hc Hn.
  destruct (run_decorated_store E data n w Hc Hn) as (d' & -> & Hc' & Ho).
  rewrite !(run_store_refused E _ _ _ He). cbn [fst snd redis after].
  repeat split; try assumption.
  intros k Hk. apply Ho. congruence.
Qed.

Lemma store_refused_value_is_counted_witness :
  (run sample_env (RedisCache.store (PStr [104; 55296])) empty_world).1
  = Raised UnicodeEncodeError /\
  redis (run sample_env (RedisCache.store (PStr [104; 55296])) empty_world).2
  = redis empty_world /\
  (run sample_env (__call__ decorated_store [PStr [104; 55296]])
       empty_world).1
  = Raised UnicodeEncodeError /\
  counter_value (now sample_env empty_world)
    (redis (run sample_env (__call__ decorated_store [PStr [104; 55296]])
              empty_world).2)
    (lit "RedisCache.store")
  = Some (0 + 1) /\
  (forall k : list Z,
     k <> lit "RedisCache.store" ->
     redis (run sample_env (__call__ decorated_store [PStr [104; 55296]])
              empty_world).2 !! k
     = redis empty_world !! k).
Proof.
  apply (store_refused_value_is_counted sample_env empty_world
           (PStr [104; 55296]) UnicodeEncodeError 0).
  - reflexivity.
  - reflexivity.
  - reflexivity.
Defined.

(** X7. [_decode_value] never raises and touches nothing: it returns in the
    same world for every value and default, and on the UTF-8 encoding of a
    text it returns that text, whatever the default. *)
Theorem decode_value_never_raises (E : env) (w : world)
    (value default : pyval) :
  exists r,
    run E (RedisCache._decode_value value default) w = (Ok r, w) /\
    (forall s b, value = PBytes b -> Utf8.encode s = Some b -> r = PStr s) /\
    (forall b, value = PBytes b -> Utf8.decode Utf8.Strict b = None ->
               r = default) /\
    ((forall b, value <> PBytes b) -> r = default).
Proof.
  eexists. split; [apply run_decode_value|]. split; [|split].
  - intros s b -> Hs. rewrite (utf8_decode_encode _ _ _ Hs). reflexivity.
  - intros b -> Hb. rewrite Hb. reflexivity.
  - intros Hv. destruct value; try reflexivity. destruct (Hv b). reflexivity.
Qed.

(** X8. [store] never touches the page cache of web.py, which lives in the
    same database: whatever is stored, the keys ["cached:..."] and
    ["count:..."] hold what they held before, since no such key is the text
    of a UUID. *)
Theorem store_keeps_page_cache (E : env) (w : world) (data : pyval)
    (u : list Z) :
  redis (run E (RedisCache.store data) w).2 !! (lit "cached:" ++ u)
  = redis w !! (lit "cached:" ++ u) /\
  redis (run E (RedisCache.store data) w).2 !! (lit "count:" ++ u)
  = redis w !! (lit "count:" ++ u).
Proof.
  destruct (uuid_str_not_web_key (Uuid.uuid4_int (draw E w)) u) as [H1 H2].
  split; apply store_keeps_other; unfold drawn_key; congruence.
Qed.



(** X10. [replay] prints the line with the count, the function's name
    followed by [was called], the stored counter and [times:], and then as
    many call lines as the shorter of the two lists has entries, pairing
    them from the front: the name, the starred input in brackets, an arrow
    and the output.  An input without a recorded output is not shown, and
    the count in the first line is the stored counter, whatever the number
    of lines. *)
Theorem replay_prints_common_prefix (E : env) (w : world) (func : pyfunc)
    (kn : list Z) (n : Z) (ins outs : list (list Z))
    (tins touts : list pystr) :
  Utf8.encode (__qualname__ func) = Some kn ->
  replay_count (redis w) kn = Some n ->
  stored_list (redis w) (kn ++ lit ":inputs") = Some ins ->
  stored_list (redis w) (kn ++ lit ":outputs") = Some outs ->
  decode_all ins = Some tins ->
  decode_all outs = Some touts ->
  (run E (RedisCache.replay func) w).1 = Ok tt /\
  stdout (run E (RedisCache.replay func) w).2
  = stdout w
    ++ (__qualname__ func ++ lit " was called " ++ Dec.int_repr n
        ++ lit " times:")
       :: map (fun io => __qualname__ func ++ lit "(*" ++ io.1
                         ++ lit ") -> " ++ io.2)
            (zip (take (Nat.min (length ins) (length outs)) tins)
                 (take (Nat.min (length ins) (length outs)) touts)) /\
  length (zip (take (Nat.min (length ins) (length outs)) tins)
              (take (Nat.min (length ins) (length outs)) touts))
  = Nat.min (length ins) (length outs).
Proof.
  intros Hk Hn Hi Ho Hti Hto.
  destruct (run_replay E func kn n ins outs tins touts w Hk Hn Hi Ho Hti Hto)
    as (w' & -> & _ & Hout).
  pose proof (decode_all_length _ _ Hti) as Hli.
  pose proof (decode_all_length _ _ Hto) as Hlo.
  split; [reflexivity|]. split.
  - cbn [snd]. rewrite Hout. do 2 f_equal.
    rewrite <- Hli, <- Hlo. clear.
    revert touts. induction tins as [|i tins IH]; intros [|o touts];
      try reflexivity.
    cbn [length Nat.min take zip zip_with map fst snd]. rewrite IH.
    reflexivity.
  - rewrite length_zip, !length_take. lia.
Qed.

Lemma replay_prints_common_prefix_witness :
  (run sample_env (RedisCache.replay (PyFunc (lit "f") (fun _ => Ret PNone)))
       uneven_history_world).1 = Ok tt /\
  stdout (run sample_env
            (RedisCache.replay (PyFunc (lit "f") (fun _ => Ret PNone)))
            uneven_history_world).2
  = stdout uneven_history_world
    ++ (lit "f" ++ lit " was called " ++ Dec.int_repr 0 ++ lit " times:")
       :: map (fun io => lit "f" ++ lit "(*" ++ io.1 ++ lit ") -> " ++ io.2)
            (zip (take (Nat.min (length [lit "(1,)"; lit "(2,)"])
                                (length [lit "a"]))
                       [lit "(1,)"; lit "(2,)"])
                 (take (Nat.min (length [lit "(1,)"; lit "(2,)"])
                                (length [lit "a"]))
                       [lit "a"])) /\
  length (zip (take (Nat.min (length [lit "(1,)"; lit "(2,)"])
                             (length [lit "a"]))
                    [lit "(1,)"; lit "(2,)"])
              (take (Nat.min (length [lit "(1,)"; lit "(2,)"])
                             (length [lit "a"]))
                    [lit "a"]))
  = Nat.min (length [lit "(1,)"; lit "(2,)"]) (length [lit "a"]).
Proof.
  apply (replay_prints_common_prefix sample_env uneven_history_world
           (PyFunc (lit "f") (fun _ => Ret PNone)) (lit "f") 0
           [lit "(1,)"; lit "(2,)"] [lit "a"]
           [lit "(1,)"; lit "(2,)"] [lit "a"]); reflexivity.
Defined.

(** The same run, as the text on the screen. *)
Example replay_uneven_history :
  stdout (run sample_env
            (RedisCache.replay (PyFunc (lit "f") (fun _ => Ret PNone)))
            uneven_history_world).2
  = [lit "f was called 0 times:"; lit "f(*(1,)) -> a"].
Proof. vm_compute. reflexivity. Qed.

Section MoreWebFacts.
Context (E : env).

Lemma persistent_counter_value (d : gmap (list Z) Redis.entry) (k : list Z)
    (n t : Z) :
  persistent_counter d k n -> counter_value t d k = Some n.
Proof.
  unfold persistent_counter, counter_value, Redis.lookup_live, Redis.expired.
  destruct (d !! k) as [[[b|l] [x|]]|]; cbn [Redis.expire_at];
    try contradiction; [exact id|congruence].
Qed.

Lemma persistent_counter_insert (d : gmap (list Z) Redis.entry) (k : list Z)
    (n : Z) :
  Dec.in_int64 n = true ->
  persistent_counter
    (<[k := Redis.Entry (Redis.VString (Dec.int_repr n)) None]> d) k n.
Proof.
  intros Hn. unfold persistent_counter. rewrite lookup_insert_eq.
  apply string2ll_int_repr, Hn.
Qed.

Lemma persistent_counter_ext (d d' : gmap (list Z) Redis.entry) (k : list Z)
    (n : Z) :
  d' !! k = d !! k -> persistent_counter d k n -> persistent_counter d' k n.
Proof. unfold persistent_counter. intros ->. exact id. Qed.

Lemma persistent_counter_in_int64 (d : gmap (list Z) Redis.entry)
    (k : list Z) (n : Z) :
  persistent_counter d k n -> Dec.in_int64 n = true.
Proof.
  intros H. apply (counter_value_in_int64 0 d k).
  apply persistent_counter_value, H.
Qed.

(** The increment of a counter that never expires. *)
Lemma run_client_incr_persistent key k n w :
  Utf8.encode key = Some k ->
  persistent_counter (redis w) k n -> n < Dec.int64_max ->
  run E (Client.incr key) w =
  (Ok (n + 1),
   after w (<[k := Redis.Entry (Redis.VString (Dec.int_repr (n + 1))) None]>
              (redis w))).
Proof.
  intros Hk Hc Hn. unfold Client.incr.
  rewrite run_bind, (run_encode_text E _ _ _ Hk). cbn [run Redis.exec].
  unfold persistent_counter in Hc.
  destruct (redis w !! k) as [[[b|l] [x|]]|] eqn:Hd; try contradiction.
  - rewrite (lookup_live_persistent _ _ _ _ Hd), Hc.
    rewrite (proj2 (Z.ltb_lt _ _) Hn). reflexivity.
  - subst n. rewrite (lookup_live_absent _ _ _ Hd). reflexivity.
Qed.

(** The run of [get_page] that fetches, with the database it leaves. *)
Lemma get_page_fetch_run url u html b n w :
  Utf8.encode url = Some u ->
  match Redis.lookup_live (now E w) (redis w) (lit "cached:" ++ u) with
  | None => True
  | Some (Redis.Entry (Redis.VString c) _) => c = []
  | Some (Redis.Entry (Redis.VList _) _) => False
  end ->
  http E (S (tick w)) url = Ok html ->
  Utf8.encode html = Some b ->
  persistent_counter (redis w) (lit "count:" ++ u) n ->
  n < Dec.int64_max ->
  run E (Web.get_page url) w =
  (Ok (PStr html),
   World (<[lit "cached:" ++ u
            := Redis.Entry (Redis.VString b)
                 (Some (clock E (S (S (S (S (tick w))))) + 1000 * 10))]>
            (<[lit "count:" ++ u
               := Redis.Entry (Redis.VString (Dec.int_repr (n + 1))) None]>
               (redis w)))
         (S (S (S (S (S (tick w)))))) (stdout w)).
Proof.
  intros Hu Hl Hh Hb Hc Hn.
  pose proof (encode_cached_key _ _ Hu) as Hkc.
  pose proof (encode_count_key _ _ Hu) as Hkn.
  assert (Client.encode_arg (PStr html) = Ret b) as Hv.
  { cbn [Client.encode_arg]. unfold Client.encode_text. rewrite Hb. reflexivity. }
  assert (exists v,
             run E (Client.get (lit "cached:" ++ url)) w
             = (Ok v, after w (redis w)) /\ truthy v = false)
    as (v & Hg & Hf).
  { rewrite (run_client_get E _ _ _ Hkc).
    destruct (Redis.lookup_live _ _ _) as [[[c|l] t]|]; [|contradiction|].
    - subst c. exists (PBytes []). split; reflexivity.
    - exists PNone. split; reflexivity. }
  unfold Web.get_page, Web.count_url_access, Web.wrapper.
  rewrite run_bind, Hg, Hf, run_bind. unfold Web.get_page_body.
  cbn [run tick redis stdout after]. rewrite Hh. cbn [run].
  rewrite run_bind.
  rewrite (run_client_incr_persistent (lit "count:" ++ url) _ n
             (World (redis w) (S (S (tick w))) (stdout w)) Hkn Hc Hn).
  rewrite run_bind, (run_client_set E _ _ _ _ _ Hkc Hv), run_bind.
  erewrite run_client_expire; [|exact Hkc| |lia].
  2:{ cbn [redis after]. apply lookup_live_insert_eq. reflexivity. }
  cbn [run after redis tick stdout]. unfold now. cbn [tick].
  rewrite insert_insert_eq. reflexivity.
Qed.

Lemma get_page_cached_trace url u b t w :
  Utf8.encode url = Some u ->
  Redis.lookup_live (now E w) (redis w) (lit "cached:" ++ u)
  = Some (Redis.Entry (Redis.VString b) t) ->
  b <> [] ->
  trace E (Web.get_page url) w = [Redis.GET (lit "cached:" ++ u)].
Proof.
  intros Hu Hl Hb. pose proof (encode_cached_key _ _ Hu) as Hkc.
  unfold Web.get_page, Web.count_url_access, Web.wrapper.
  rewrite trace_bind, (trace_client_get E _ _ _ Hkc).
  rewrite (run_client_get E _ _ _ Hkc), Hl. cbn [truthy].
  rewrite bool_decide_eq_false_2 by exact Hb. cbn [negb].
  rewrite trace_bind. cbn [py_decode].
  destruct (Utf8.decode Utf8.Strict b); reflexivity.
Qed.

Lemma sends_get_page_within url u :
  Utf8.encode url = Some u ->
  sends_only (writes_within (page_key u)) (Web.get_page url).
Proof.
  intros Hu.
  pose proof (encode_cached_key _ _ Hu) as Hkc.
  pose proof (encode_count_key _ _ Hu) as Hkn.
  assert (forall A (f : list Z -> prog A) s k,
             Utf8.encode s = Some k ->
             sends_only (writes_within (page_key u)) (f k) ->
             sends_only (writes_within (page_key u))
                        (Client.encode_text s ≫= f)) as Henc.
  { intros A f s k Hs Hf. unfold Client.encode_text. rewrite Hs. exact Hf. }
  unfold Web.get_page, Web.count_url_access, Web.wrapper.
  apply sends_only_bind; [apply sends_client_get; intros; exact I|].
  intros cached. destruct (truthy cached).
  { apply sends_only_bind; [apply sends_py_decode|]. intros s. constructor. }
  apply sends_only_bind.
  { unfold Web.get_page_body. constructor. intros [text|e]; constructor. }
  intros html. apply sends_only_bind.
  { unfold Client.incr. eapply Henc; [exact Hkn|].
    constructor; [right; reflexivity|]. intros []; constructor. }
  intros _. apply sends_only_bind.
  { unfold Client.set. eapply Henc; [exact Hkc|].
    apply sends_only_bind; [apply sends_encode_arg|]. intros v.
    constructor; [left; reflexivity|]. intros []; constructor. }
  intros _. apply sends_only_bind.
  { unfold Client.expire. eapply Henc; [exact Hkc|].
    constructor; [left; reflexivity|]. intros []; constructor. }
  intros _. constructor.
Qed.

End MoreWebFacts.

(** X11. While a cached body that is not empty is alive under the URL's
    key, [get_page] returns its UTF-8 text after a single [GET]: the page
    is not fetched, and the database, with the URL's counter, stays as it
    was. *)
Theorem get_page_serves_cached (E : env) (w : world) (url s : pystr)
    (u b : list Z) (t : option Z) :
  Utf8.encode url = Some u ->
  Redis.lookup_live (now E w) (redis w) (lit "cached:" ++ u)
  = Some (Redis.Entry (Redis.VString b) t) ->
  b <> [] ->
  Utf8.decode Utf8.Strict b = Some s ->
  run E (Web.get_page url) w = (Ok (PStr s), after w (redis w)) /\
  trace E (Web.get_page url) w = [Redis.GET (lit "cached:" ++ u)].
Proof.
  intros Hu Hl Hb Hs. split.
  - apply (get_page_cached E url u b t s w Hu Hl Hb Hs).
  - apply (get_page_cached_trace E url u b t w Hu Hl Hb).
Qed.

Lemma get_page_serves_cached_witness :
  run offline_env (Web.get_page (lit "u")) cached_world
  = (Ok (PStr (lit "<p>")), after cached_world (redis cached_world)) /\
  trace offline_env (Web.get_page (lit "u")) cached_world
  = [Redis.GET (lit "cached:" ++ lit "u")].
Proof.
  apply (get_page_serves_cached offline_env cached_world (lit "u") (lit "<p>")
           (lit "u") (lit "<p>") None); try reflexivity.
  discriminate.
Defined.

(** X12. Two calls of [get_page] for a page that is not empty, the second
    within ten seconds of the first call's [expire]: the second call
    returns the body the first one fetched, sends a single [GET], and the
    URL's counter has gone up by one, not by two. *)
Theorem get_page_twice_counts_once (E : env) (w : world) (url html : pystr)
    (u b : list Z) (n : Z) :
  Utf8.encode url = Some u ->
  Redis.lookup_live (now E w) (redis w) (lit "cached:" ++ u) = None ->
  persistent_counter (redis w) (lit "count:" ++ u) n ->
  n < Dec.int64_max ->
  http E (S (tick w)) url = Ok html ->
  Utf8.encode html = Some b ->
  html <> [] ->
  clock E (S (S (S (S (S (tick w))))))
  <= clock E (S (S (S (S (tick w))))) + 1000 * 10 ->
  (run E (Web.get_page url) (run E (Web.get_page url) w).2).1
  = Ok (PStr html) /\
  trace E (Web.get_page url) (run E (Web.get_page url) w).2
  = [Redis.GET (lit "cached:" ++ u)] /\
  persistent_counter
    (redis (run E (Web.get_page url) (run E (Web.get_page url) w).2).2)
    (lit "count:" ++ u) (n + 1).
Proof.
  intros Hu Hl Hc Hn Hh Hb Hne Ht.
  assert (match Redis.lookup_live (now E w) (redis w) (lit "cached:" ++ u) with
          | None => True
          | Some (Redis.Entry (Redis.VString c) _) => c = []
          | Some (Redis.Entry (Redis.VList _) _) => False
          end) as Hl' by (rewrite Hl; exact I).
  rewrite (get_page_fetch_run E url u html b n w Hu Hl' Hh Hb Hc Hn).
  cbn [snd].
  set (w1 := World _ _ _).
  assert (Redis.lookup_live (now E w1) (redis w1) (lit "cached:" ++ u)
          = Some (Redis.Entry (Redis.VString b)
                    (Some (clock E (S (S (S (S (tick w))))) + 1000 * 10))))
    as Hl1.
  { unfold w1, now. cbn [redis tick]. apply lookup_live_insert_eq.
    unfold Redis.expired. cbn [Redis.expire_at]. apply Z.ltb_ge. exact Ht. }
  pose proof (utf8_encode_nonempty _ _ Hb Hne) as Hbne.
  pose proof (utf8_decode_encode Utf8.Strict _ _ Hb) as Hdec.
  rewrite (get_page_cached E url u b _ html w1 Hu Hl1 Hbne Hdec).
  rewrite (get_page_cached_trace E url u b _ w1 Hu Hl1 Hbne).
  split; [reflexivity|]. split; [reflexivity|].
  cbn [snd redis after]. unfold w1. cbn [redis].
  eapply persistent_counter_ext;
    [apply lookup_insert_ne, web_keys_distinct|].
  apply persistent_counter_insert.
  pose proof (persistent_counter_in_int64 _ _ _ Hc) as Hr.
  unfold Dec.in_int64, Dec.int64_min, Dec.int64_max in *. lia.
Qed.

Lemma get_page_twice_counts_once_witness :
  (run sample_env (Web.get_page (lit "u"))
       (run sample_env (Web.get_page (lit "u")) empty_world).2).1
  = Ok (PStr (lit "<html>")) /\
  trace sample_env (Web.get_page (lit "u"))
        (run sample_env (Web.get_page (lit "u")) empty_world).2
  = [Redis.GET (lit "cached:" ++ lit "u")] /\
  persistent_counter
    (redis (run sample_env (Web.get_page (lit "u"))
              (run sample_env (Web.get_page (lit "u")) empty_world).2).2)
    (lit "count:" ++ lit "u") (0 + 1).
Proof.
  apply (get_page_twice_counts_once sample_env empty_world (lit "u")
           (lit "<html>") (lit "u") (lit "<html>") 0); try reflexivity.
  - discriminate.
  - vm_compute. discriminate.
Defined.

(** X13. Once the ten seconds are over the cached body is gone: a call made
    after the expiry time fetches the page again, returns the new body,
    caches it for ten more seconds and counts the fetch, so that the URL's
    counter has gone up by two. *)
Theorem get_page_refetches_after_expiry (E : env) (w : world)
    (url h1 h2 : pystr) (u b1 b2 : list Z) (n : Z) :
  Utf8.encode url = Some u ->
  Redis.lookup_live (now E w) (redis w) (lit "cached:" ++ u) = None ->
  persistent_counter (redis w) (lit "count:" ++ u) n ->
  n + 1 < Dec.int64_max ->
  http E (S (tick w)) url = Ok h1 ->
  Utf8.encode h1 = Some b1 ->
  clock E (S (S (S (S (tick w))))) + 1000 * 10
  < clock E (S (S (S (S (S (tick w)))))) ->
  http E (S (S (S (S (S (S (tick w))))))) url = Ok h2 ->
  Utf8.encode h2 = Some b2 ->
  (run E (Web.get_page url) (run E (Web.get_page url) w).2).1
  = Ok (PStr h2) /\
  persistent_counter
    (redis (run E (Web.get_page url) (run E (Web.get_page url) w).2).2)
    (lit "count:" ++ u) (n + 2) /\
  redis (run E (Web.get_page url) (run E (Web.get_page url) w).2).2
    !! (lit "cached:" ++ u)
  = Some (Redis.Entry (Redis.VString b2)
            (Some (clock E (S (S (S (S (S (S (S (S (S (tick w))))))))))
                   + 1000 * 10))).
Proof.
  intros Hu Hl Hc Hn Hh1 Hb1 Ht Hh2 Hb2.
  pose proof (persistent_counter_in_int64 _ _ _ Hc) as Hr.
  assert (match Redis.lookup_live (now E w) (redis w) (lit "cached:" ++ u) with
          | None => True
          | Some (Redis.Entry (Redis.VString c) _) => c = []
          | Some (Redis.Entry (Redis.VList _) _) => False
          end) as Hl' by (rewrite Hl; exact I).
  rewrite (get_page_fetch_run E url u h1 b1 n w Hu Hl' Hh1 Hb1 Hc)
    by lia.
  cbn [snd]. set (w1 := World _ _ _).
  assert (Redis.lookup_live (now E w1) (redis w1) (lit "cached:" ++ u) = None)
    as Hl1.
  { unfold w1, now, Redis.lookup_live. cbn [redis tick].
    rewrite lookup_insert_eq. unfold Redis.expired. cbn [Redis.expire_at].
    rewrite (proj2 (Z.ltb_lt _ _) Ht). reflexivity. }
  assert (persistent_counter (redis w1) (lit "count:" ++ u) (n + 1)) as Hc1.
  { unfold w1. cbn [redis]. eapply persistent_counter_ext;
      [apply lookup_insert_ne, web_keys_distinct|].
    apply persistent_counter_insert.
    unfold Dec.in_int64, Dec.int64_min, Dec.int64_max in *. lia. }
  assert (match Redis.lookup_live (now E w1) (redis w1) (lit "cached:" ++ u) with
          | None => True
          | Some (Redis.Entry (Redis.VString c) _) => c = []
          | Some (Redis.Entry (Redis.VList _) _) => False
          end) as Hl1' by (rewrite Hl1; exact I).
  rewrite (get_page_fetch_run E url u h2 b2 (n + 1) w1 Hu Hl1' Hh2 Hb2 Hc1 Hn).
  cbn [fst snd redis]. split; [reflexivity|]. split.
  - eapply persistent_counter_ext;
      [apply lookup_insert_ne, web_keys_distinct|].
    replace (n + 2) with (n + 1 + 1) by lia.
    apply persistent_counter_insert.
    unfold Dec.in_int64, Dec.int64_min, Dec.int64_max in *. lia.
  - apply lookup_insert_eq.
Qed.

Lemma get_page_refetches_after_expiry_witness :
  (run slow_env (Web.get_page (lit "u"))
       (run slow_env (Web.get_page (lit "u")) empty_world).2).1
  = Ok (PStr (lit "page 6")) /\
  persistent_counter
    (redis (run slow_env (Web.get_page (lit "u"))
              (run slow_env (Web.get_page (lit "u")) empty_world).2).2)
    (lit "count:" ++ lit "u") (0 + 2) /\
  redis (run slow_env (Web.get_page (lit "u"))
           (run slow_env (Web.get_page (lit "u")) empty_world).2).2
    !! (lit "cached:" ++ lit "u")
  = Some (Redis.Entry (Redis.VString (lit "page 6"))
            (Some (clock slow_env 9 + 1000 * 10))).
Proof.
  apply (get_page_refetches_after_expiry slow_env empty_world (lit "u")
           (lit "page 1") (lit "page 6") (lit "u") (lit "page 1")
           (lit "page 6") 0); reflexivity.
Defined.

(** X14. When the fetch raises, [get_page] raises the same exception and
    has written nothing: the counter is not raised and no body is cached,
    since both come after the fetch. *)
Theorem get_page_fetch_failure_changes_nothing (E : env) (w : world)
    (url : pystr) (u : list Z) (e : exn) :
  Utf8.encode url = Some u ->
  Redis.lookup_live (now E w) (redis w) (lit "cached:" ++ u) = None ->
  http E (S (tick w)) url = Raised e ->
  (run E (Web.get_page url) w).1 = Raised e /\
  redis (run E (Web.get_page url) w).2 = redis w /\
  trace E (Web.get_page url) w = [Redis.GET (lit "cached:" ++ u)].
Proof.
  intros Hu Hl Hh. pose proof (encode_cached_key _ _ Hu) as Hkc.
  unfold Web.get_page, Web.count_url_access, Web.wrapper.
  rewrite run_bind, trace_bind, (trace_client_get E _ _ _ Hkc).
  rewrite (run_client_get E _ _ _ Hkc), Hl. cbn [truthy].
  rewrite run_bind, trace_bind. unfold Web.get_page_body.
  cbn [run trace tick redis stdout after]. rewrite Hh.
  repeat split.
Qed.

Lemma get_page_fetch_failure_changes_nothing_witness :
  (run offline_env (Web.get_page (lit "u")) empty_world).1
  = Raised RequestException /\
  redis (run offline_env (Web.get_page (lit "u")) empty_world).2
  = redis empty_world /\
  trace offline_env (Web.get_page (lit "u")) empty_world
  = [Redis.GET (lit "cached:" ++ lit "u")].
Proof.
  apply (get_page_fetch_failure_changes_nothing offline_env empty_world
           (lit "u") (lit "u") RequestException); reflexivity.
Defined.

(** X15. [get_page] writes under the two keys of its URL and nowhere else:
    in every run, whether it serves the cache, fetches or raises, every
    other key holds what it held before, and so do the cached body and the
    counter of every other URL. *)
Theorem get_page_writes_only_its_keys (E : env) (w : world) (url : pystr)
    (u : list Z) :
  Utf8.encode url = Some u ->
  (forall k : list Z,
     k <> lit "cached:" ++ u -> k <> lit "count:" ++ u ->
     redis (run E (Web.get_page url) w).2 !! k = redis w !! k) /\
  (forall (url' : pystr) (u' : list Z),
     Utf8.encode url' = Some u' -> url' <> url ->
     redis (run E (Web.get_page url) w).2 !! (lit "cached:" ++ u')
     = redis w !! (lit "cached:" ++ u') /\
     redis (run E (Web.get_page url) w).2 !! (lit "count:" ++ u')
     = redis w !! (lit "count:" ++ u')).
Proof.
  intros Hu.
  assert (forall k : list Z,
            k <> lit "cached:" ++ u -> k <> lit "count:" ++ u ->
            redis (run E (Web.get_page url) w).2 !! k = redis w !! k) as Hk.
  { intros k H1 H2.
    apply (run_writes_within E (page_key u));
      [apply sends_get_page_within, Hu|].
    intros [H|H]; congruence. }
  split; [exact Hk|].
  intros url' u' Hu' Hne.
  assert (u' <> u) as Hu'u.
  { intros ->. apply Hne. exact (utf8_encode_inj _ _ _ Hu' Hu). }
  split; apply Hk.
  - intros H. apply app_inv_head in H. exact (Hu'u H).
  - intros H. discriminate H.
  - intros H. discriminate H.
  - intros H. apply app_inv_head in H. exact (Hu'u H).
Qed.

Lemma get_page_writes_only_its_keys_witness :
  (forall k : list Z,
     k <> lit "cached:" ++ lit "v" -> k <> lit "count:" ++ lit "v" ->
     redis (run sample_env (Web.get_page (lit "v")) cached_world).2 !! k
     = redis cached_world !! k) /\
  (forall (url' : pystr) (u' : list Z),
     Utf8.encode url' = Some u' -> url' <> lit "v" ->
     redis (run sample_env (Web.get_page (lit "v")) cached_world).2
       !! (lit "cached:" ++ u')
     = redis cached_world !! (lit "cached:" ++ u') /\
     redis (run sample_env (Web.get_page (lit "v")) cached_world).2
       !! (lit "count:" ++ u')
     = redis cached_world !! (lit "count:" ++ u')).
Proof.
  apply (get_page_writes_only_its_keys sample_env cached_world (lit "v")
           (lit "v")).
  reflexivity.
Defined.

(** X16. Constructing a [RedisCache] empties the page cache as well, for
    both modules use the same database: the next [get_page] fetches the
    page, whatever body was cached, and the URL's counter starts again at
    one. *)
Theorem init_resets_page_cache (E : env) (w : world) (url html : pystr)
    (u b : list Z) :
  Utf8.encode url = Some u ->
  http E (S (S (tick w))) url = Ok html ->
  Utf8.encode html = Some b ->
  (run E (Web.get_page url) (run E RedisCache.__init__ w).2).1
  = Ok (PStr html) /\
  persistent_counter
    (redis (run E (Web.get_page url) (run E RedisCache.__init__ w).2).2)
    (lit "count:" ++ u) 1 /\
  redis (run E (Web.get_page url) (run E RedisCache.__init__ w).2).2
    !! (lit "cached:" ++ u)
  = Some (Redis.Entry (Redis.VString b)
            (Some (clock E (S (S (S (S (S (tick w)))))) + 1000 * 10))).
Proof.
  intros Hu Hh Hb. unfold RedisCache.__init__.
  rewrite run_bind, run_client_flushdb. cbn [run snd].
  rewrite (get_page_fetch_run E url u html b 0 (after w ∅) Hu);
    [|exact I|exact Hh|exact Hb|reflexivity|reflexivity].
  cbn [fst snd redis after tick]. split; [reflexivity|]. split.
  - eapply persistent_counter_ext;
      [apply lookup_insert_ne, web_keys_distinct|].
    apply persistent_counter_insert. reflexivity.
  - apply lookup_insert_eq.
Qed.

Lemma init_resets_page_cache_witness :
  (run sample_env (Web.get_page (lit "u"))
       (run sample_env RedisCache.__init__ cached_world).2).1
  = Ok (PStr (lit "<html>")) /\
  persistent_counter
    (redis (run sample_env (Web.get_page (lit "u"))
              (run sample_env RedisCache.__init__ cached_world).2).2)
    (lit "count:" ++ lit "u") 1 /\
  redis (run sample_env (Web.get_page (lit "u"))
           (run sample_env RedisCache.__init__ cached_world).2).2
    !! (lit "cached:" ++ lit "u")
  = Some (Redis.Entry (Redis.VString (lit "<html>"))
            (Some (clock sample_env 5 + 1000 * 10))).
Proof.
  apply (init_resets_page_cache sample_env cached_world (lit "u")
           (lit "<html>") (lit "u") (lit "<html>")); reflexivity.
Defined.

(** [get_page] leaves every key that is the text of a UUID alone, whatever
    the URL. *)
Lemma get_page_keeps_uuid_key (E : env) (w : world) (url : pystr) (r : Z) :
  redis (run E (Web.get_page url) w).2 !! Uuid.uuid_str r
  = redis w !! Uuid.uuid_str r.
Proof.
  destruct (Utf8.encode url) as [u|] eqn:Hu.
  - apply (run_writes_within E (page_key u));
      [apply sends_get_page_within, Hu|].
    destruct (uuid_str_not_web_key r u) as [H1 H2].
    intros [H|H]; congruence.
  - assert (Utf8.encode (lit "cached:" ++ url) = None) as Hk
        by (rewrite utf8_encode_app, Hu; reflexivity).
    unfold Web.get_page, Web.count_url_access, Web.wrapper, Client.get.
    rewrite !run_bind. unfold Client.encode_text. rewrite Hk. reflexivity.
Qed.

(** X17. The fallback of [_decode_value] covers decoding only: when the
    server answers the [get] with an error, as it does for a key that holds
    a list, the exception of the client reaches the caller of [get],
    [get_str] and [get_int]; no default is returned. *)
Theorem getters_raise_on_list_key (E : env) (w : world) (key : pystr)
    (k : list Z) (l : list (list Z)) (t : option Z) :
  Utf8.encode key = Some k ->
  Redis.lookup_live (now E w) (redis w) k
  = Some (Redis.Entry (Redis.VList l) t) ->
  (run E (RedisCache.get key None) w).1 = Raised ResponseError /\
  (run E (RedisCache.get_str key) w).1 = Raised ResponseError /\
  (run E (RedisCache.get_int key) w).1 = Raised ResponseError.
Proof.
  intros Hk Hl.
  rewrite run_get_str, (run_get_default E _ _ _ Hk), (run_get_int E _ _ _ Hk).
  rewrite Hl. repeat split.
Qed.

Lemma getters_raise_on_list_key_witness :
  (run sample_env (RedisCache.get (lit "k") None) list_world).1
  = Raised ResponseError /\
  (run sample_env (RedisCache.get_str (lit "k")) list_world).1
  = Raised ResponseError /\
  (run sample_env (RedisCache.get_int (lit "k")) list_world).1
  = Raised ResponseError.
Proof.
  apply (getters_raise_on_list_key sample_env list_world (lit "k") (lit "k")
           [lit "a"] None); reflexivity.
Defined.

(** X18. A stored value survives the page cache: after [store], any call of
    [get_page], for any URL and however it ends, leaves the stored entry in
    place, and [get] on the returned key still yields the text of the
    stored bytes. *)
Theorem stored_value_survives_get_page (E : env) (w : world) (data : pyval)
    (v : list Z) (url : pystr) :
  Client.encode_arg data = Ret v ->
  (run E (RedisCache.store data) w).1 = Ok (PStr (drawn_key E w)) /\
  (run E (RedisCache.get (drawn_key E w) None)
       (run E (Web.get_page url) (run E (RedisCache.store data) w).2).2).1
  = Ok (PStr (default [] (Utf8.decode Utf8.Strict v))).
Proof.
  intros Hv. rewrite (run_store E _ _ _ Hv). cbn [fst snd].
  split; [reflexivity|].
  rewrite (run_get_default E _ _ _ (encode_drawn_key E w)).
  rewrite (lookup_live_persistent _ _ _ (Redis.VString v)); [reflexivity|].
  unfold drawn_key. rewrite get_page_keeps_uuid_key.
  cbn [redis after]. apply lookup_insert_eq.
Qed.

Lemma stored_value_survives_get_page_witness :
  (run sample_env (RedisCache.store (PStr (lit "x"))) empty_world).1
  = Ok (PStr (drawn_key sample_env empty_world)) /\
  (run sample_env (RedisCache.get (drawn_key sample_env empty_world) None)
       (run sample_env (Web.get_page (lit "u"))
          (run sample_env (RedisCache.store (PStr (lit "x")))
             empty_world).2).2).1
  = Ok (PStr (default [] (Utf8.decode Utf8.Strict (lit "x")))).
Proof.
  apply (stored_value_survives_get_page sample_env empty_world
           (PStr (lit "x")) (lit "x") (lit "u")).
  reflexivity.
Defined.
